(** * Neo4JDownloader: subgraph extraction and relationship typing

    A shallow embedding of [src/utils/neo4jdownloader.py].  The graph store
    behind the driver is an external collaborator: it is modelled as a record
    of answer functions, one per query the class issues.  Python dictionaries
    are insertion-ordered, and the order in which [tmp_edges.items()] is
    walked decides which exception is raised first, so dictionaries are
    association lists that keep insertion order.  Methods that talk to the
    store run in a small monad carrying the list of observable events (queries
    sent, lines printed, errors logged) and an exception-or-value result. *)

From Stdlib Require Import ZArith String List Bool Lia.
Import ListNotations.
Open Scope string_scope.
Open Scope list_scope.

(** ** Decidable equality, as used by [==] on keys and ids *)

Class EqDec (A : Type) := eq_dec : forall x y : A, {x = y} + {x <> y}.

#[global] Instance string_EqDec : EqDec string := string_dec.
#[global] Instance Z_EqDec : EqDec Z := Z.eq_dec.

#[global] Instance prod_EqDec {A B : Type} `{EqDec A} `{EqDec B} : EqDec (A * B).
Proof.
  intros [a b] [a' b'].
  destruct (eq_dec a a') as [Ha | Ha]; [destruct (eq_dec b b') as [Hb | Hb] |].
  - left; congruence.
  - right; congruence.
  - right; congruence.
Defined.

(** [x in l] on a Python list. *)
Fixpoint mem {A : Type} `{EqDec A} (x : A) (l : list A) : bool :=
  match l with
  | [] => false
  | y :: l' => if eq_dec x y then true else mem x l'
  end.

(** ** Insertion-ordered dictionaries *)

Module Dict.
Section Ops.
Context {K V : Type} `{EqDec K}.

Definition t := list (K * V).

Definition empty : t := [].

(** [d.get(k)]: [None] when the key is missing. *)
Fixpoint get (d : t) (k : K) : option V :=
  match d with
  | [] => None
  | (k', v) :: d' => if eq_dec k k' then Some v else get d' k
  end.

(** [k in d] *)
Definition contains (d : t) (k : K) : bool :=
  match get d k with Some _ => true | None => false end.

(** [d[k]] at a place where the source has just made sure the key is
    there; [dflt] is never reached on those paths. *)
Definition getd (d : t) (k : K) (dflt : V) : V :=
  match get d k with Some v => v | None => dflt end.

(** [d[k] = v]: an existing key keeps its position, a new key goes last. *)
Fixpoint set (d : t) (k : K) (v : V) : t :=
  match d with
  | [] => [(k, v)]
  | (k', v') :: d' =>
      if eq_dec k k' then (k', v) :: d' else (k', v') :: set d' k v
  end.

Definition keys (d : t) : list K := map fst d.
Definition items (d : t) : list (K * V) := d.
End Ops.
Arguments t : clear implicits.
End Dict.

(** ** Data model *)

Definition label := string.

(** Property values as the driver hands them over. *)
Inductive pyval :=
| PyNone
| PyBool (b : bool)
| PyInt (z : Z)
| PyStr (s : string).

(** [dict(n)], [dict(r)]: property name to value. *)
Definition props := Dict.t string pyval.

(** [neo4j.graph.Node]: [n.id], [n.labels] in iteration order, [dict(n)]. *)
Record node := {
  node_id : Z;
  node_labels : list label;
  node_props : props
}.

(** [neo4j.graph.Relationship]: the store's own identity [r.id] (never read
    by the class), [r.type], the endpoint nodes and [dict(r)]. *)
Record relationship := {
  rel_id : Z;
  rel_type : string;
  start_node : node;
  end_node : node;
  rel_props : props
}.

(** [neo4j.graph.Path]: [p.nodes] and [p.relationships]. *)
Record path := {
  path_nodes : list node;
  path_relationships : list relationship
}.

(** One schema entry, [{"source": ..., "target": ...}]. *)
Record rel_info := {
  source : label;
  target : label
}.

(** The caller's declaration: relationship type -> sub-type -> entry. *)
Definition rel_def_t := Dict.t string rel_info.
Definition relationships_t := Dict.t string rel_def_t.

(** The tuple appended to [tmp_edges[reltype]]. *)
Record raw_edge := {
  src_id : Z;
  dst_id : Z;
  edge_props : props;
  src_labels : list label;
  dst_labels : list label
}.

(** A classified member of [grouped[typename]]: [(src_id, dst_id, props)]. *)
Definition item := (Z * Z * props)%type.

(** A two-dimensional integer array, as its list of rows. *)
Definition ndarray := list (list Z).

Definition shape (a : ndarray) : nat * nat :=
  (length a, match a with [] => 0 | r :: _ => length r end).

(** ** Exceptions, events and the method monad *)

Inductive exn :=
| DriverError (msg : string)
| Neo4jError (msg : string)
| KeyError (key : string).

(** The [except (DriverError, Neo4jError)] clause. *)
Definition is_query_error (e : exn) : bool :=
  match e with
  | DriverError _ | Neo4jError _ => true
  | KeyError _ => false
  end.

Definition result (A : Type) := (exn + A)%type.

Inductive query :=
| QFilter (cypher_filter_query : string)
| QExpand (depth : Z) (seed_ids : list Z)
| QNodes (lab : label)
| QEdges (src_label : label) (rel : string) (dst_label : label).

Inductive event :=
| EvRun (q : query)
| EvPrint (line : string)
| EvLogError (q : query) (e : exn).

Definition trace := list event.

Definition M (A : Type) := trace -> trace * result A.

Definition ret {A : Type} (a : A) : M A := fun tr => (tr, inr a).

Definition raise {A : Type} (e : exn) : M A := fun tr => (tr, inl e).

Definition bind {A B : Type} (m : M A) (k : A -> M B) : M B :=
  fun tr =>
    match m tr with
    | (tr', inl e) => (tr', inl e)
    | (tr', inr a) => k a tr'
    end.

Definition emit_event (ev : event) : M unit := fun tr => (tr ++ [ev], inr tt).

Definition lift {A : Type} (r : result A) : M A := fun tr => (tr, r).

Declare Scope py_scope.
Delimit Scope py_scope with py.
Notation "x <- c ;; k" := (bind c (fun x => k))
  (at level 100, c at next level, right associativity) : py_scope.
Notation "' p <- c ;; k" := (bind c (fun x => let p := x in k))
  (at level 100, p pattern, c at next level, right associativity) : py_scope.
Notation "c ;;; k" := (bind c (fun _ => k))
  (at level 100, right associativity) : py_scope.

(** A [for] loop whose body may raise. *)
Fixpoint for_each {A S : Type} (body : S -> A -> M S) (l : list A) (s : S) : M S :=
  match l with
  | [] => ret s
  | a :: l' => bind (body s a) (for_each body l')
  end.

(** The same loop for bodies that only compute. *)
Fixpoint for_each_r {A S : Type} (body : S -> A -> result S) (l : list A) (s : S)
  : result S :=
  match l with
  | [] => inr s
  | a :: l' =>
      match body s a with
      | inl e => inl e
      | inr s' => for_each_r body l' s'
      end
  end.

(** ** The graph store behind the driver *)

(** One row of [get_nodes]: [record["value.id"]], [record["features"]]. *)
Record node_row := {
  value_id : Z;
  features : props
}.

(** One row of [get_edges]: [record["src"]], [record["dst"]],
    [record["edge_features"]]. *)
Record edge_row := {
  row_src : Z;
  row_dst : Z;
  edge_features : pyval
}.

(** What the store answers to each query: all its rows, or the exception
    the driver raises while the rows are run or read. *)
Record store := {
  answer_filter : string -> result (list node);
  answer_expand : Z -> list Z -> result (list path);
  answer_nodes : label -> result (list node_row);
  answer_edges : label -> string -> label -> result (list edge_row)
}.

Definition run_filter (db : store) (q : string) : M (list node) :=
  (emit_event (EvRun (QFilter q)) ;;; lift (answer_filter db q))%py.

Definition run_expand (db : store) (depth : Z) (seed_ids : list Z) : M (list path) :=
  (emit_event (EvRun (QExpand depth seed_ids)) ;;;
   lift (answer_expand db depth seed_ids))%py.

Definition run_nodes (db : store) (lab : label) : M (list node_row) :=
  (emit_event (EvRun (QNodes lab)) ;;; lift (answer_nodes db lab))%py.

Definition run_edges (db : store) (s : label) (r : string) (d : label)
  : M (list edge_row) :=
  (emit_event (EvRun (QEdges s r d)) ;;; lift (answer_edges db s r d))%py.

(** [try: m except (DriverError, Neo4jError) as exception:
    logging.error(...); raise]. *)
Definition log_and_reraise {A : Type} (q : query) (m : M A) : M A :=
  fun tr =>
    match m tr with
    | (tr', inl e) =>
        if is_query_error e then (tr' ++ [EvLogError q e], inl e)
        else (tr', inl e)
    | (tr', inr a) => (tr', inr a)
    end.

(** ** [get_nodes] and [retrieve_nodes] *)

Definition get_nodes (db : store) (lab : label) : M (list Z * list props) :=
  log_and_reraise (QNodes lab)
    (results <- run_nodes db lab ;;
     ret (map value_id results, map features results))%py.

Definition retrieve_nodes (db : store) (nodes_list : list label)
  : M (Dict.t string (list Z) * Dict.t string (list props)) :=
  for_each
    (fun '(ids, feats) nd =>
       ' (id, feat) <- get_nodes db nd ;;
       ret (Dict.set ids nd id, Dict.set feats nd feat))%py
    nodes_list (Dict.empty, Dict.empty).

(** ** [get_edges] and [retrieve_edges] *)

(** [np.array(edge_index).T] for a list of [[src, dst]] rows: two rows of
    [M] columns, and the empty array (no row at all) when [M = 0]. *)
Definition np_array_T (edge_index : list (Z * Z)) : ndarray :=
  match edge_index with
  | [] => []
  | _ :: _ => [map fst edge_index; map snd edge_index]
  end.

Definition get_edges (db : store) (src_label : label) (rel : string)
    (dst_label : label) : M (ndarray * list pyval) :=
  (results <- run_edges db src_label rel dst_label ;;
   let edge_index := map (fun record => (row_src record, row_dst record)) results in
   let edge_attrs := map edge_features results in
   ret (np_array_T edge_index, edge_attrs))%py.

Definition edges_index_t := Dict.t string (Dict.t string ndarray).
Definition edges_features_t := Dict.t string (Dict.t string (list pyval)).

(** The body of [for type, val in subdict.items()]: one session, one
    [get_edges], and [edges_index[key][type] = edge_index]. *)
Definition fetch_subtype (db : store) (key : string)
    (acc : edges_index_t * edges_features_t) (entry : string * rel_info)
  : M (edges_index_t * edges_features_t) :=
  let '(edges_index, edges_attributes) := acc in
  let '(type, val) := entry in
  (' (edge_index, edge_attributes) <-
     get_edges db (source val) key (target val) ;;
   ret (Dict.set edges_index key
          (Dict.set (Dict.getd edges_index key Dict.empty) type edge_index),
        Dict.set edges_attributes key
          (Dict.set (Dict.getd edges_attributes key Dict.empty) type
             edge_attributes)))%py.

(** The body of [for key, subdict in relationship_dict.items()]. *)
Definition fetch_reltype (db : store)
    (acc : edges_index_t * edges_features_t) (entry : string * rel_def_t)
  : M (edges_index_t * edges_features_t) :=
  let '(edges_index, edges_attributes) := acc in
  let '(key, subdict) := entry in
  let edges_index := Dict.set edges_index key Dict.empty in
  let edges_attributes := Dict.set edges_attributes key Dict.empty in
  for_each (fetch_subtype db key) (Dict.items subdict)
    (edges_index, edges_attributes).

Definition retrieve_edges (db : store) (relationship_dict : relationships_t)
  : M (edges_index_t * edges_features_t) :=
  for_each (fetch_reltype db) (Dict.items relationship_dict)
    (Dict.empty, Dict.empty).

(** ** [retrieve_subgraph] *)

Definition nodes_ids_t := Dict.t string (list Z).
Definition nodes_features_t := Dict.t string (list props).
Definition tmp_edges_t := Dict.t string (list raw_edge).

(** The body of [for lab in n.labels]. *)
Definition visit_label (n : node) (acc : nodes_ids_t * nodes_features_t)
    (lab : label) : nodes_ids_t * nodes_features_t :=
  let '(nodes_ids, nodes_features) := acc in
  let '(nodes_ids, nodes_features) :=
    if Dict.contains nodes_ids lab then (nodes_ids, nodes_features)
    else (Dict.set nodes_ids lab [], Dict.set nodes_features lab []) in
  if mem (node_id n) (Dict.getd nodes_ids lab []) then (nodes_ids, nodes_features)
  else (Dict.set nodes_ids lab (Dict.getd nodes_ids lab [] ++ [node_id n]),
        Dict.set nodes_features lab
          (Dict.getd nodes_features lab [] ++ [node_props n])).

(** The body of [for n in p.nodes]. *)
Definition visit_node (acc : nodes_ids_t * nodes_features_t) (n : node)
  : nodes_ids_t * nodes_features_t :=
  fold_left (visit_label n) (node_labels n) acc.

Definition to_raw_edge (r : relationship) : raw_edge :=
  {| src_id := node_id (start_node r);
     dst_id := node_id (end_node r);
     edge_props := rel_props r;
     src_labels := node_labels (start_node r);
     dst_labels := node_labels (end_node r) |}.

(** The body of [for r in p.relationships]. *)
Definition visit_relationship (tmp_edges : tmp_edges_t) (r : relationship)
  : tmp_edges_t :=
  let reltype := rel_type r in
  let tmp_edges :=
    if Dict.contains tmp_edges reltype then tmp_edges
    else Dict.set tmp_edges reltype [] in
  Dict.set tmp_edges reltype (Dict.getd tmp_edges reltype [] ++ [to_raw_edge r]).

(** The body of [for record in paths]. *)
Definition visit_path
    (st : nodes_ids_t * nodes_features_t * tmp_edges_t) (p : path)
  : nodes_ids_t * nodes_features_t * tmp_edges_t :=
  let '(nodes_acc, tmp_edges) := st in
  (fold_left visit_node (path_nodes p) nodes_acc,
   fold_left visit_relationship (path_relationships p) tmp_edges).

Definition collect (paths : list path)
  : nodes_ids_t * nodes_features_t * tmp_edges_t :=
  fold_left visit_path paths (Dict.empty, Dict.empty, Dict.empty).

(** [label_to_type]: [(src_label, dst_label) -> typename]. *)
Definition build_label_to_type (rel_def : rel_def_t)
  : Dict.t (label * label) string :=
  fold_left
    (fun label_to_type '(typename, info) =>
       Dict.set label_to_type (source info, target info) typename)
    (Dict.items rel_def) Dict.empty.

(** [{typename: [] for typename in rel_def.keys()}] *)
Definition init_grouped (rel_def : rel_def_t) : Dict.t string (list item) :=
  fold_left (fun grouped typename => Dict.set grouped typename [])
    (Dict.keys rel_def) Dict.empty.

(** The body of [for src_id, dst_id, props, src_labels, dst_labels in
    triples]: every pair of the two label lists is looked up, and every
    pair found appends.  [grouped[typename]] cannot miss its key, every
    value of [label_to_type] being a key of [rel_def]. *)
Definition classify_edge (label_to_type : Dict.t (label * label) string)
    (grouped : Dict.t string (list item)) (e : raw_edge)
  : Dict.t string (list item) :=
  fold_left
    (fun grouped sl =>
       fold_left
         (fun grouped tl =>
            match Dict.get label_to_type (sl, tl) with
            | Some typename =>
                Dict.set grouped typename
                  (Dict.getd grouped typename []
                     ++ [(src_id e, dst_id e, edge_props e)])
            | None => grouped
            end)
         (dst_labels e) grouped)
    (src_labels e) grouped.

Definition group_edges (rel_def : rel_def_t) (triples : list raw_edge)
  : Dict.t string (list item) :=
  fold_left (classify_edge (build_label_to_type rel_def)) triples
    (init_grouped rel_def).

(** [np.array([srcs, dsts])] *)
Definition np_array (rows : list (list Z)) : ndarray := rows.

(** The body of [for typename, items in grouped.items()]. *)
Definition emit_group
    (acc : Dict.t string ndarray * Dict.t string (list props))
    (entry : string * list item)
  : Dict.t string ndarray * Dict.t string (list props) :=
  let '(indices, attributes) := acc in
  let '(typename, items) := entry in
  match items with
  | [] => (indices, attributes)
  | _ :: _ =>
      let srcs := map (fun e => fst (fst e)) items in
      let dsts := map (fun e => snd (fst e)) items in
      let feats := map (fun e => snd e) items in
      (Dict.set indices typename (np_array [srcs; dsts]),
       Dict.set attributes typename feats)
  end.

Definition emit_groups (grouped : Dict.t string (list item))
  : Dict.t string ndarray * Dict.t string (list props) :=
  fold_left emit_group (Dict.items grouped) (Dict.empty, Dict.empty).

Definition edges_attributes_t := Dict.t string (Dict.t string (list props)).

(** The body of [for reltype, triples in tmp_edges.items()];
    [relationships[reltype]] raises [KeyError] on a missing key. *)
Definition classify_reltype (relationships : relationships_t)
    (acc : edges_index_t * edges_attributes_t)
    (entry : string * list raw_edge)
  : result (edges_index_t * edges_attributes_t) :=
  let '(edges_indices, edges_attributes) := acc in
  let '(reltype, triples) := entry in
  let edges_indices := Dict.set edges_indices reltype Dict.empty in
  let edges_attributes := Dict.set edges_attributes reltype Dict.empty in
  match Dict.get relationships reltype with
  | None => inl (KeyError reltype)
  | Some rel_def =>
      let '(indices, attributes) := emit_groups (group_edges rel_def triples) in
      inr (Dict.set edges_indices reltype indices,
           Dict.set edges_attributes reltype attributes)
  end.

Definition classify (relationships : relationships_t) (tmp_edges : tmp_edges_t)
  : result (edges_index_t * edges_attributes_t) :=
  for_each_r (classify_reltype relationships) (Dict.items tmp_edges)
    (Dict.empty, Dict.empty).

(** The four mappings returned by [retrieve_subgraph]. *)
Definition snapshot :=
  (nodes_ids_t * nodes_features_t * edges_index_t * edges_attributes_t)%type.

Definition empty_snapshot : snapshot :=
  (Dict.empty, Dict.empty, Dict.empty, Dict.empty).

Definition retrieve_subgraph (db : store) (relationships : relationships_t)
    (cypher_filter_query : string) (depth : Z) : M snapshot :=
  (seed_result <- run_filter db cypher_filter_query ;;
   let seed_ids := map node_id seed_result in
   match seed_ids with
   | [] => ret empty_snapshot
   | _ :: _ =>
       emit_event (EvPrint "Starting expansion and extraction of subgraph...") ;;;
       paths <- run_expand db depth seed_ids ;;
       let '(nodes_ids, nodes_features, tmp_edges) := collect paths in
       ' (edges_indices, edges_attributes) <- lift (classify relationships tmp_edges) ;;
       emit_event (EvPrint "Finished extraction of subgraph.") ;;;
       ret (nodes_ids, nodes_features, edges_indices, edges_attributes)
   end)%py.

(** ** Notions used to state the facts *)

Definition ev_filter (q : string) : event := EvRun (QFilter q).
Definition ev_starting : event :=
  EvPrint "Starting expansion and extraction of subgraph...".
Definition ev_expand (depth : Z) (seed_ids : list Z) : event :=
  EvRun (QExpand depth seed_ids).
Definition ev_finished : event := EvPrint "Finished extraction of subgraph.".

Definition buckets_nodup (nodes_ids : nodes_ids_t) : Prop :=
  forall lab bucket, Dict.get nodes_ids lab = Some bucket -> NoDup bucket.

(** Every relationship of every path, in traversal order. *)
Definition traversed (paths : list path) : list relationship :=
  flat_map path_relationships paths.

Definition has_type (reltype : string) (r : relationship) : bool :=
  String.eqb (rel_type r) reltype.

Definition item_of (e : raw_edge) : item := (src_id e, dst_id e, edge_props e).

(** [(sl, tl) in label_to_type and label_to_type[(sl, tl)] == typename] *)
Definition maps_to (label_to_type : Dict.t (label * label) string)
    (typename : string) (pair : label * label) : bool :=
  match Dict.get label_to_type pair with
  | Some t => String.eqb t typename
  | None => false
  end.

(** The label pairs of an edge, in the order the two nested loops visit
    them, that the lookup sends to [typename]. *)
Definition matching_pairs (label_to_type : Dict.t (label * label) string)
    (typename : string) (e : raw_edge) : list (label * label) :=
  filter (maps_to label_to_type typename)
    (list_prod (src_labels e) (dst_labels e)).

(** The body of [for tl in dst_labels], for a fixed [sl]. *)
Definition visit_pair (label_to_type : Dict.t (label * label) string)
    (e : raw_edge) (sl : label) (grouped : Dict.t string (list item))
    (tl : label) : Dict.t string (list item) :=
  match Dict.get label_to_type (sl, tl) with
  | Some typename =>
      Dict.set grouped typename (Dict.getd grouped typename [] ++ [item_of e])
  | None => grouped
  end.

(** The items one sub-type receives from a list of raw edges, in order. *)
Definition classified (label_to_type : Dict.t (label * label) string)
    (typename : string) (triples : list raw_edge) : list item :=
  flat_map
    (fun e => repeat (item_of e) (length (matching_pairs label_to_type typename e)))
    triples.

Definition index_of (items : list item) : ndarray :=
  np_array [map (fun e => fst (fst e)) items; map (fun e => snd (fst e)) items].

Definition feats_of (items : list item) : list props := map (fun e => snd e) items.

(** What the emission loop leaves under a key: something only for a
    non-empty group. *)
Definition emitted {A : Type} (f : list item -> A) (group : option (list item))
    (before : option A) : option A :=
  match group with
  | Some (i :: items) => Some (f (i :: items))
  | _ => before
  end.

(** What classification leaves under a relationship type. *)
Definition classified_entry {A : Type} (relationships : relationships_t)
    (f : rel_def_t -> list raw_edge -> A) (reltype : string)
    (raw : option (list raw_edge)) (before : option A) : option A :=
  match raw with
  | Some triples =>
      match Dict.get relationships reltype with
      | Some rel_def => Some (f rel_def triples)
      | None => None
      end
  | None => before
  end.

Definition edge_index_of (rows : list edge_row) : ndarray :=
  np_array_T (map (fun record => (row_src record, row_dst record)) rows).

Definition edge_attrs_of (rows : list edge_row) : list pyval :=
  map edge_features rows.

(** What [retrieve_edges] stores for one declared sub-type, and for one
    relationship type, when the store answers [rows]. *)
Definition index_entry (rows : label -> string -> label -> list edge_row)
    (key : string) (entry : string * rel_info) : string * ndarray :=
  (fst entry,
   edge_index_of (rows (source (snd entry)) key (target (snd entry)))).

Definition attrs_entry (rows : label -> string -> label -> list edge_row)
    (key : string) (entry : string * rel_info) : string * list pyval :=
  (fst entry,
   edge_attrs_of (rows (source (snd entry)) key (target (snd entry)))).

Definition index_group (rows : label -> string -> label -> list edge_row)
    (entry : string * rel_def_t) : string * Dict.t string ndarray :=
  (fst entry, map (index_entry rows (fst entry)) (snd entry)).

Definition attrs_group (rows : label -> string -> label -> list edge_row)
    (entry : string * rel_def_t) : string * Dict.t string (list pyval) :=
  (fst entry, map (attrs_entry rows (fst entry)) (snd entry)).

(** ** Sample graph *)

Definition alice : node :=
  {| node_id := 1; node_labels := ["User"];
     node_props := [("name", PyStr "alice")] |}.

Definition pulse : node :=
  {| node_id := 2; node_labels := ["Repo"];
     node_props := [("name", PyStr "pulse")] |}.

(** A node carrying two labels. *)
Definition root : node :=
  {| node_id := 3; node_labels := ["User"; "Admin"]; node_props := [] |}.

Definition alice_owns_pulse : relationship :=
  {| rel_id := 10; rel_type := "owns"; start_node := alice; end_node := pulse;
     rel_props := [("since", PyInt 2020)] |}.

(** The reversed direction: no declared label pair fits. *)
Definition pulse_owns_alice : relationship :=
  {| rel_id := 11; rel_type := "owns"; start_node := pulse; end_node := alice;
     rel_props := [] |}.

Definition root_owns_pulse : relationship :=
  {| rel_id := 12; rel_type := "owns"; start_node := root; end_node := pulse;
     rel_props := [] |}.

Definition pulse_forked_from_pulse : relationship :=
  {| rel_id := 13; rel_type := "forked_from"; start_node := pulse;
     end_node := pulse; rel_props := [] |}.

Definition owns_rel_def : rel_def_t :=
  [("owns_repo", {| source := "User"; target := "Repo" |});
   ("admin_repo", {| source := "Admin"; target := "Repo" |})].

Definition owns_schema : relationships_t := [("owns", owns_rel_def)].

Definition seed_query : string := "MATCH (n:User) RETURN n".

(** A store that answers the filter query with [seeds] and the expansion
    with [paths]. *)
Definition graph_store (seeds : list node) (paths : list path) : store :=
  {| answer_filter := fun _ => inr seeds;
     answer_expand := fun _ _ => inr paths;
     answer_nodes := fun _ => inr [];
     answer_edges := fun _ _ _ => inr [] |}.

(** A store whose every query fails. *)
Definition broken_store (e : exn) : store :=
  {| answer_filter := fun _ => inl e;
     answer_expand := fun _ _ => inl e;
     answer_nodes := fun _ => inl e;
     answer_edges := fun _ _ _ => inl e |}.

(** A store whose expansion fails after the seeds were found. *)
Definition half_broken_store (seeds : list node) (e : exn) : store :=
  {| answer_filter := fun _ => inr seeds;
     answer_expand := fun _ _ => inl e;
     answer_nodes := fun _ => inl e;
     answer_edges := fun _ _ _ => inl e |}.

Definition one_hop : path :=
  {| path_nodes := [alice; pulse]; path_relationships := [alice_owns_pulse] |}.

(** The same relationship, reached from the other end. *)
Definition one_hop_back : path :=
  {| path_nodes := [pulse; alice]; path_relationships := [alice_owns_pulse] |}.

Definition round_trip : path :=
  {| path_nodes := [alice; pulse; alice];
     path_relationships := [alice_owns_pulse; pulse_owns_alice] |}.

Definition admin_hop : path :=
  {| path_nodes := [root; pulse]; path_relationships := [root_owns_pulse] |}.

Definition fork_hop : path :=
  {| path_nodes := [pulse; pulse];
     path_relationships := [pulse_forked_from_pulse] |}.

(** [d[reltype][typename]], [None] when either key is missing. *)
Definition subtype_entry {V : Type} (d : Dict.t string (Dict.t string V))
    (reltype typename : string) : option V :=
  match Dict.get d reltype with
  | Some inner => Dict.get inner typename
  | None => None
  end.

(** The discards of one extraction: the traversed relationships of a
    declared type none of whose label pairs is in the lookup. *)
Definition unmatched (relationships : relationships_t) (r : relationship) : bool :=
  match Dict.get relationships (rel_type r) with
  | Some rel_def =>
      forallb
        (fun pair => negb (Dict.contains (build_label_to_type rel_def) pair))
        (list_prod (node_labels (start_node r)) (node_labels (end_node r)))
  | None => false
  end.

Definition discard_count (relationships : relationships_t) (paths : list path)
  : nat :=
  length (filter (unmatched relationships) (traversed paths)).

(** ** Notions used to state the further properties *)

(** Every node of every path, in traversal order. *)
Definition visited (paths : list path) : list node := flat_map path_nodes paths.

(** [lab in n.labels] *)
Definition has_label (lab : label) (n : node) : bool := mem lab (node_labels n).

(** Appending an identity that is not in the list yet. *)
Definition add_new (acc : list Z) (x : Z) : list Z :=
  if mem x acc then acc else acc ++ [x].

(** The identities of a list in the order they are first met. *)
Definition first_seen (l : list Z) : list Z := fold_left add_new l [].

(** Appending identity and properties of a node whose identity is not in
    the list yet. *)
Definition add_new_node (acc : list (Z * props)) (n : node) : list (Z * props) :=
  if mem (node_id n) (map fst acc) then acc
  else acc ++ [(node_id n, node_props n)].

Definition first_seen_nodes (l : list node) : list (Z * props) :=
  fold_left add_new_node l [].

(** A bucket of identities and a bucket of property dictionaries read as
    the two columns of one list of pairs. *)
Definition bucket_is (acc : nodes_ids_t * nodes_features_t) (lab : label)
    (pairs : list (Z * props)) : Prop :=
  Dict.getd (fst acc) lab [] = map fst pairs /\
  Dict.getd (snd acc) lab [] = map snd pairs.

(** A run used as example: two seeds, three paths, one node with two
    labels, one relationship met twice and one without matching labels. *)
Definition sample_paths : list path := [one_hop; round_trip; admin_hop].

Definition sample_store : store := graph_store [alice; root] sample_paths.

Definition sample_trace : trace :=
  [EvRun (QFilter seed_query); ev_starting; EvRun (QExpand 2 [1%Z; 3%Z]);
   ev_finished].

Definition sample_nodes_ids : nodes_ids_t :=
  [("User", [1%Z; 3%Z]); ("Repo", [2%Z]); ("Admin", [3%Z])].

Definition sample_nodes_features : nodes_features_t :=
  [("User", [node_props alice; node_props root]);
   ("Repo", [node_props pulse]); ("Admin", [node_props root])].

Definition sample_edges_indices : edges_index_t :=
  [("owns", [("owns_repo", [[1%Z; 1%Z; 3%Z]; [2%Z; 2%Z; 2%Z]]);
             ("admin_repo", [[3%Z]; [2%Z]])])].

Definition sample_edges_attributes : edges_attributes_t :=
  [("owns", [("owns_repo", [rel_props alice_owns_pulse;
                            rel_props alice_owns_pulse;
                            rel_props root_owns_pulse]);
             ("admin_repo", [rel_props root_owns_pulse])])].

(** A bucket is created only to receive an identity at once. *)
Definition buckets_nonempty (nodes_ids : nodes_ids_t) : Prop :=
  forall lab, Dict.get nodes_ids lab <> Some [].

(** [reltype not in relationships] *)
Definition undeclared (relationships : relationships_t) (reltype : string) : bool :=
  negb (Dict.contains relationships reltype).

(** A declaration that expects [owns] to run from a repository to a user. *)
Definition reversed_schema : relationships_t :=
  [("owns", [("repo_owner", {| source := "Repo"; target := "User" |})])].

(** The label pair one schema entry declares. *)
Definition label_pair (info : rel_info) : label * label :=
  (source info, target info).

(** The body of the loop that fills [label_to_type]. *)
Definition declare_pair (label_to_type : Dict.t (label * label) string)
    (entry : string * rel_info) : Dict.t (label * label) string :=
  Dict.set label_to_type (label_pair (snd entry)) (fst entry).

(** The body of [for node in nodes_list] in [retrieve_nodes]. *)
Definition store_label (db : store)
    (acc : Dict.t string (list Z) * Dict.t string (list props)) (nd : label)
  : M (Dict.t string (list Z) * Dict.t string (list props)) :=
  (let '(ids, feats) := acc in
   ' (id, feat) <- get_nodes db nd ;;
   ret (Dict.set ids nd id, Dict.set feats nd feat))%py.

(** The event of sending the [get_nodes] query of a label. *)
Definition ev_nodes (lab : label) : event := EvRun (QNodes lab).

(** What [get_nodes] leaves in the trace when the store fails with [e]. *)
Definition ev_nodes_failed (lab : label) (e : exn) : list event :=
  if is_query_error e then [EvRun (QNodes lab); EvLogError (QNodes lab) e]
  else [EvRun (QNodes lab)].







(** A store with two [User] rows and no other node, and one that
    moreover fails on the [Repo] query. *)
Definition user_rows : list node_row :=
  [{| value_id := 1; features := [("name", PyStr "alice")] |};
   {| value_id := 3; features := [("name", PyNone)] |}].

Definition rows_of_label (lab : label) : list node_row :=
  if String.eqb lab "User" then user_rows else [].

Definition label_store : store :=
  {| answer_filter := fun _ => inr [];
     answer_expand := fun _ _ => inr [];
     answer_nodes := fun lab => inr (rows_of_label lab);
     answer_edges := fun _ _ _ => inr [] |}.


(** A store that answers every [get_edges] query with two rows. *)
Definition owns_rows : list edge_row :=
  [{| row_src := 1; row_dst := 2; edge_features := PyNone |};
   {| row_src := 3; row_dst := 2; edge_features := PyInt 5 |}].

Definition edge_store : store :=
  {| answer_filter := fun _ => inr [];
     answer_expand := fun _ _ => inr [];
     answer_nodes := fun _ => inr [];
     answer_edges := fun _ _ _ => inr owns_rows |}.

(** * Facts *)

(** ** Dictionaries *)

Module DictFacts.
Section Facts.
Context {K V : Type} `{EqDec K}.
Implicit Types (d : Dict.t K V) (k : K) (v : V).

Lemma get_set_eq d k v : Dict.get (Dict.set d k v) k = Some v.
Proof.
  induction d as [| [k' v'] d IH]; simpl.
  - destruct (eq_dec k k); congruence.
  - destruct (eq_dec k k') as [-> | Hne]; simpl.
    + destruct (eq_dec k' k'); congruence.
    + destruct (eq_dec k k'); [congruence | exact IH].
Qed.

Lemma get_set_neq d k k' v :
  k <> k' -> Dict.get (Dict.set d k v) k' = Dict.get d k'.
Proof.
  intros Hne. induction d as [| [k0 v0] d IH]; simpl.
  - destruct (eq_dec k' k); congruence.
  - destruct (eq_dec k k0) as [-> | Hk]; simpl.
    + destruct (eq_dec k' k0); congruence.
    + destruct (eq_dec k' k0); [reflexivity | exact IH].
Qed.

Lemma getd_set_eq d k v dflt : Dict.getd (Dict.set d k v) k dflt = v.
Proof. unfold Dict.getd. now rewrite get_set_eq. Qed.

Lemma getd_set_neq d k k' v dflt :
  k <> k' -> Dict.getd (Dict.set d k v) k' dflt = Dict.getd d k' dflt.
Proof. intros Hne. unfold Dict.getd. now rewrite get_set_neq. Qed.

Lemma get_None_iff d k : Dict.get d k = None <-> ~ In k (Dict.keys d).
Proof.
  induction d as [| [k' v'] d IH]; simpl.
  - tauto.
  - destruct (eq_dec k k') as [-> | Hne].
    + split; [discriminate | intros Hn; exfalso; apply Hn; now left].
    + rewrite IH. split.
      * intros Hn [Heq | Hin]; [congruence | tauto].
      * tauto.
Qed.

Lemma get_Some_In d k v : Dict.get d k = Some v -> In (k, v) d.
Proof.
  induction d as [| [k' v'] d IH]; simpl; [discriminate |].
  destruct (eq_dec k k') as [-> | Hne].
  - intros [= ->]. now left.
  - intros Hg. right. now apply IH.
Qed.

Lemma get_Some_key d k v : Dict.get d k = Some v -> In k (Dict.keys d).
Proof.
  intros Hg. apply get_Some_In in Hg.
  unfold Dict.keys. change k with (fst (k, v)). now apply in_map.
Qed.

Lemma In_get d k v : NoDup (Dict.keys d) -> In (k, v) d -> Dict.get d k = Some v.
Proof.
  induction d as [| [k' v'] d IH]; simpl; [tauto |].
  intros Hnd [Heq | Hin].
  - injection Heq as -> ->. destruct (eq_dec k k); congruence.
  - inversion Hnd as [| ? ? Hnotin Hnd']; subst.
    destruct (eq_dec k k') as [-> | Hne].
    + exfalso. apply Hnotin. change k' with (fst (k', v)). now apply in_map.
    + now apply IH.
Qed.

Lemma set_notin d k v : ~ In k (Dict.keys d) -> Dict.set d k v = d ++ [(k, v)].
Proof.
  induction d as [| [k' v'] d IH]; simpl; [reflexivity |].
  intros Hn. destruct (eq_dec k k') as [-> | Hne].
  - exfalso. apply Hn. now left.
  - f_equal. apply IH. tauto.
Qed.

Lemma set_last d k v0 v :
  ~ In k (Dict.keys d) -> Dict.set (d ++ [(k, v0)]) k v = d ++ [(k, v)].
Proof.
  induction d as [| [k' v'] d IH]; simpl.
  - intros _. destruct (eq_dec k k); congruence.
  - intros Hn. destruct (eq_dec k k') as [-> | Hne].
    + exfalso. apply Hn. now left.
    + f_equal. apply IH. tauto.
Qed.

Lemma keys_set_in d k v :
  In k (Dict.keys d) -> Dict.keys (Dict.set d k v) = Dict.keys d.
Proof.
  induction d as [| [k' v'] d IH]; simpl; [tauto |].
  intros Hin. destruct (eq_dec k k') as [-> | Hne]; simpl; [reflexivity |].
  f_equal. apply IH. destruct Hin; congruence.
Qed.

Lemma In_keys_set d k v k' :
  In k' (Dict.keys (Dict.set d k v)) <-> k' = k \/ In k' (Dict.keys d).
Proof.
  induction d as [| [k0 v0] d IH]; simpl.
  - intuition congruence.
  - destruct (eq_dec k k0) as [-> | Hne]; simpl.
    + intuition congruence.
    + rewrite IH. intuition congruence.
Qed.

Lemma NoDup_keys_set d k v :
  NoDup (Dict.keys d) -> NoDup (Dict.keys (Dict.set d k v)).
Proof.
  induction d as [| [k0 v0] d IH]; simpl.
  - intros _. constructor; [simpl; tauto | constructor].
  - intros Hnd. inversion Hnd as [| ? ? Hnotin Hnd']; subst.
    destruct (eq_dec k k0) as [-> | Hne]; simpl.
    + now constructor.
    + constructor; [| now apply IH].
      rewrite In_keys_set. intros [Heq | Hin]; [congruence | tauto].
Qed.

Lemma contains_true_iff d k : Dict.contains d k = true <-> In k (Dict.keys d).
Proof.
  unfold Dict.contains. destruct (Dict.get d k) eqn:Hg.
  - split; [intros _; eapply get_Some_key; eauto | reflexivity].
  - apply get_None_iff in Hg. split; [discriminate | tauto].
Qed.
End Facts.
End DictFacts.

Lemma mem_true_iff {A : Type} `{EqDec A} (x : A) (l : list A) :
  mem x l = true <-> In x l.
Proof.
  induction l as [| y l IH]; simpl.
  - split; [discriminate | tauto].
  - destruct (eq_dec x y) as [-> | Hne].
    + split; [now left | reflexivity].
    + rewrite IH. split; [now right | intros [Heq | Hin]; [congruence | exact Hin]].
Qed.

Lemma NoDup_snoc {A : Type} (x : A) (l : list A) :
  NoDup l -> ~ In x l -> NoDup (l ++ [x]).
Proof.
  intros Hnd Hn. induction Hnd as [| y l Hy Hnd IH]; simpl.
  - constructor; [simpl; tauto | constructor].
  - constructor.
    + rewrite in_app_iff. simpl. intros [Hin | [Heq | []]]; [tauto |].
      apply Hn. now left.
    + apply IH. intros Hin. apply Hn. now right.
Qed.

(** A loop invariant carried through [fold_left]. *)
Lemma fold_left_invariant {A S : Type} (P : S -> Prop) (f : S -> A -> S)
    (l : list A) (s : S) :
  (forall s a, In a l -> P s -> P (f s a)) -> P s -> P (fold_left f l s).
Proof.
  revert s. induction l as [| a l IH]; simpl; intros s Hstep Hs; [exact Hs |].
  apply IH.
  - intros s' a' Hin. apply Hstep. now right.
  - apply Hstep; [now left | exact Hs].
Qed.

(** ** What one call of [retrieve_subgraph] does, query by query *)

Lemma retrieve_subgraph_run (db : store) (relationships : relationships_t)
    (q : string) (depth : Z) (tr : trace) :
  retrieve_subgraph db relationships q depth tr =
  match answer_filter db q with
  | inl e => (tr ++ [ev_filter q], inl e)
  | inr seed_result =>
      match map node_id seed_result with
      | [] => (tr ++ [ev_filter q], inr empty_snapshot)
      | _ :: _ =>
          let seed_ids := map node_id seed_result in
          let tr1 :=
            ((tr ++ [ev_filter q]) ++ [ev_starting]) ++ [ev_expand depth seed_ids] in
          match answer_expand db depth seed_ids with
          | inl e => (tr1, inl e)
          | inr paths =>
              match classify relationships (snd (collect paths)) with
              | inl e => (tr1, inl e)
              | inr (edges_indices, edges_attributes) =>
                  (tr1 ++ [ev_finished],
                   inr (fst (fst (collect paths)), snd (fst (collect paths)),
                        edges_indices, edges_attributes))
              end
          end
      end
  end.
Proof.
  unfold retrieve_subgraph, run_filter, run_expand, bind, lift, emit_event, ret.
  simpl.
  destruct (answer_filter db q) as [e | seed_result]; [reflexivity |].
  destruct (map node_id seed_result) as [| i ids] eqn:Hids; [reflexivity |].
  simpl.
  destruct (answer_expand db depth (i :: ids)) as [e | paths]; [reflexivity |].
  destruct (collect paths) as [[nodes_ids nodes_features] tmp_edges]. simpl.
  destruct (classify relationships tmp_edges) as [e | [ei ea]]; reflexivity.
Qed.

(** ** Node buckets *)

Lemma visit_label_nodup (n : node) (acc : nodes_ids_t * nodes_features_t)
    (lab : label) :
  buckets_nodup (fst acc) -> buckets_nodup (fst (visit_label n acc lab)).
Proof.
  destruct acc as [ids feats]. unfold visit_label. simpl. intros Hinv.
  assert (Hens : exists ids' feats',
             (if Dict.contains ids lab then (ids, feats)
              else (Dict.set ids lab [], Dict.set feats lab [])) = (ids', feats')
             /\ buckets_nodup ids').
  { destruct (Dict.contains ids lab).
    - now exists ids, feats.
    - exists (Dict.set ids lab []), (Dict.set feats lab []). split; [reflexivity |].
      intros lab' bucket. destruct (string_dec lab lab') as [<- | Hne].
      + rewrite DictFacts.get_set_eq. intros [= <-]. constructor.
      + rewrite DictFacts.get_set_neq by exact Hne. apply Hinv. }
  destruct Hens as (ids' & feats' & -> & Hinv').
  destruct (mem (node_id n) (Dict.getd ids' lab [])) eqn:Hmem; simpl; [exact Hinv' |].
  intros lab' bucket. destruct (string_dec lab lab') as [<- | Hne].
  - rewrite DictFacts.get_set_eq. intros [= <-].
    apply NoDup_snoc.
    + unfold Dict.getd. destruct (Dict.get ids' lab) as [b |] eqn:Hg.
      * eapply Hinv'; eauto.
      * constructor.
    + rewrite <- mem_true_iff. congruence.
  - rewrite DictFacts.get_set_neq by exact Hne. apply Hinv'.
Qed.

Lemma visit_node_nodup (acc : nodes_ids_t * nodes_features_t) (n : node) :
  buckets_nodup (fst acc) -> buckets_nodup (fst (visit_node acc n)).
Proof.
  unfold visit_node.
  apply (fold_left_invariant (fun acc => buckets_nodup (fst acc))).
  intros s lab _. apply visit_label_nodup.
Qed.

Lemma visit_path_nodes (st : nodes_ids_t * nodes_features_t * tmp_edges_t)
    (p : path) :
  fst (visit_path st p) = fold_left visit_node (path_nodes p) (fst st).
Proof. destruct st as [nodes_acc tmp]. reflexivity. Qed.

Lemma visit_path_edges (st : nodes_ids_t * nodes_features_t * tmp_edges_t)
    (p : path) :
  snd (visit_path st p) =
  fold_left visit_relationship (path_relationships p) (snd st).
Proof. destruct st as [nodes_acc tmp]. reflexivity. Qed.

Lemma collect_nodup (paths : list path) :
  buckets_nodup (fst (fst (collect paths))).
Proof.
  unfold collect.
  apply (fold_left_invariant (fun st => buckets_nodup (fst (fst st)))).
  - intros st p _ Hinv. rewrite visit_path_nodes.
    apply (fold_left_invariant (fun acc => buckets_nodup (fst acc))); [| exact Hinv].
    intros acc n _. apply visit_node_nodup.
  - intros lab bucket. discriminate.
Qed.

(** ** Raw edges *)

Lemma visit_relationship_getd (tmp_edges : tmp_edges_t) (r : relationship)
    (reltype : string) :
  Dict.getd (visit_relationship tmp_edges r) reltype [] =
  Dict.getd tmp_edges reltype [] ++
  (if has_type reltype r then [to_raw_edge r] else []).
Proof.
  unfold visit_relationship, has_type.
  set (tmp' := if Dict.contains tmp_edges (rel_type r) then tmp_edges
               else Dict.set tmp_edges (rel_type r) []).
  assert (Hsame : forall k, Dict.getd tmp' k [] = Dict.getd tmp_edges k []).
  { intros k. subst tmp'. unfold Dict.contains.
    destruct (Dict.get tmp_edges (rel_type r)) eqn:Hg; [reflexivity |].
    destruct (string_dec (rel_type r) k) as [<- | Hne].
    - rewrite DictFacts.getd_set_eq. unfold Dict.getd. now rewrite Hg.
    - now rewrite DictFacts.getd_set_neq. }
  destruct (String.eqb_spec (rel_type r) reltype) as [<- | Hne].
  - rewrite DictFacts.getd_set_eq. now rewrite Hsame.
  - rewrite DictFacts.getd_set_neq by exact Hne. rewrite Hsame.
    now rewrite app_nil_r.
Qed.

Lemma fold_visit_relationship_getd (rs : list relationship)
    (tmp_edges : tmp_edges_t) (reltype : string) :
  Dict.getd (fold_left visit_relationship rs tmp_edges) reltype [] =
  Dict.getd tmp_edges reltype [] ++
  map to_raw_edge (filter (has_type reltype) rs).
Proof.
  revert tmp_edges. induction rs as [| r rs IH]; intros tmp_edges; simpl.
  - now rewrite app_nil_r.
  - rewrite IH, visit_relationship_getd, <- app_assoc. f_equal.
    destruct (has_type reltype r); reflexivity.
Qed.

Lemma fold_visit_path_getd (paths : list path)
    (st : nodes_ids_t * nodes_features_t * tmp_edges_t) (reltype : string) :
  Dict.getd (snd (fold_left visit_path paths st)) reltype [] =
  Dict.getd (snd st) reltype [] ++
  map to_raw_edge (filter (has_type reltype) (traversed paths)).
Proof.
  revert st. induction paths as [| p paths IH]; intros st; simpl.
  - now rewrite app_nil_r.
  - rewrite IH, visit_path_edges, fold_visit_relationship_getd.
    unfold traversed. simpl. rewrite filter_app, map_app, <- app_assoc.
    reflexivity.
Qed.

Lemma collect_getd (paths : list path) (reltype : string) :
  Dict.getd (snd (collect paths)) reltype [] =
  map to_raw_edge (filter (has_type reltype) (traversed paths)).
Proof. unfold collect. now rewrite fold_visit_path_getd. Qed.

Lemma collect_get (paths : list path) (reltype : string) (triples : list raw_edge) :
  Dict.get (snd (collect paths)) reltype = Some triples ->
  triples = map to_raw_edge (filter (has_type reltype) (traversed paths)).
Proof.
  intros Hg. rewrite <- collect_getd. unfold Dict.getd. now rewrite Hg.
Qed.

Lemma visit_relationship_keys (tmp_edges : tmp_edges_t) (r : relationship)
    (k : string) :
  In k (Dict.keys (visit_relationship tmp_edges r)) <->
  k = rel_type r \/ In k (Dict.keys tmp_edges).
Proof.
  unfold visit_relationship. rewrite DictFacts.In_keys_set.
  destruct (Dict.contains tmp_edges (rel_type r)); [reflexivity |].
  rewrite DictFacts.In_keys_set. tauto.
Qed.

Lemma visit_relationship_keys_nodup (tmp_edges : tmp_edges_t) (r : relationship) :
  NoDup (Dict.keys tmp_edges) ->
  NoDup (Dict.keys (visit_relationship tmp_edges r)).
Proof.
  intros Hnd. unfold visit_relationship. apply DictFacts.NoDup_keys_set.
  destruct (Dict.contains tmp_edges (rel_type r)); [exact Hnd |].
  now apply DictFacts.NoDup_keys_set.
Qed.

Lemma collect_keys_nodup (paths : list path) :
  NoDup (Dict.keys (snd (collect paths))).
Proof.
  unfold collect.
  apply (fold_left_invariant (fun st => NoDup (Dict.keys (snd st)))).
  - intros st p _ Hnd. rewrite visit_path_edges.
    apply (fold_left_invariant (fun tmp => NoDup (Dict.keys tmp))); [| exact Hnd].
    intros tmp r _. apply visit_relationship_keys_nodup.
  - constructor.
Qed.

Lemma fold_visit_relationship_keys (rs : list relationship)
    (tmp_edges : tmp_edges_t) (k : string) :
  In k (Dict.keys (fold_left visit_relationship rs tmp_edges)) <->
  In k (Dict.keys tmp_edges) \/ exists r, In r rs /\ rel_type r = k.
Proof.
  revert tmp_edges. induction rs as [| r rs IH]; intros tmp_edges; simpl.
  - split; [now left | intros [Hin | (r & [] & _)]; exact Hin].
  - rewrite IH, visit_relationship_keys. split.
    + intros [[-> | Hin] | (r' & Hin & Heq)].
      * right. exists r. split; [now left | reflexivity].
      * now left.
      * right. exists r'. split; [now right | exact Heq].
    + intros [Hin | (r' & [<- | Hin] & Heq)].
      * left. now right.
      * left. left. now symmetry.
      * right. now exists r'.
Qed.

Lemma collect_keys (paths : list path) (k : string) :
  In k (Dict.keys (snd (collect paths))) <->
  exists r, In r (traversed paths) /\ rel_type r = k.
Proof.
  unfold collect.
  enough (Hgen : forall st,
             In k (Dict.keys (snd (fold_left visit_path paths st))) <->
             In k (Dict.keys (snd st)) \/
             exists r, In r (traversed paths) /\ rel_type r = k).
  { rewrite Hgen. simpl. split; [intros [[] | Hex]; exact Hex | now right]. }
  induction paths as [| p paths IH]; intros st; simpl.
  - split; [now left | intros [Hin | (r & [] & _)]; exact Hin].
  - rewrite IH, visit_path_edges, fold_visit_relationship_keys.
    unfold traversed. simpl. split.
    + intros [[Hin | (r & Hin & Heq)] | (r & Hin & Heq)].
      * now left.
      * right. exists r. rewrite in_app_iff. tauto.
      * right. exists r. rewrite in_app_iff. tauto.
    + intros [Hin | (r & Hin & Heq)].
      * left. now left.
      * rewrite in_app_iff in Hin. destruct Hin as [Hin | Hin].
        -- left. right. now exists r.
        -- right. now exists r.
Qed.

(** ** Classification of one raw edge *)

Lemma classify_edge_unfold (label_to_type : Dict.t (label * label) string)
    (grouped : Dict.t string (list item)) (e : raw_edge) :
  classify_edge label_to_type grouped e =
  fold_left
    (fun grouped sl => fold_left (visit_pair label_to_type e sl) (dst_labels e) grouped)
    (src_labels e) grouped.
Proof. reflexivity. Qed.

Lemma visit_pair_getd (label_to_type : Dict.t (label * label) string)
    (e : raw_edge) (sl tl : label) (grouped : Dict.t string (list item))
    (typename : string) :
  Dict.getd (visit_pair label_to_type e sl grouped tl) typename [] =
  Dict.getd grouped typename [] ++
  repeat (item_of e)
    (length (filter (maps_to label_to_type typename) [(sl, tl)])).
Proof.
  unfold visit_pair, maps_to. simpl.
  destruct (Dict.get label_to_type (sl, tl)) as [t |]; simpl.
  - destruct (String.eqb_spec t typename) as [-> | Hne]; simpl.
    + now rewrite DictFacts.getd_set_eq.
    + rewrite DictFacts.getd_set_neq by exact Hne. now rewrite app_nil_r.
  - now rewrite app_nil_r.
Qed.

Lemma fold_visit_pair_getd (label_to_type : Dict.t (label * label) string)
    (e : raw_edge) (sl : label) (tls : list label)
    (grouped : Dict.t string (list item)) (typename : string) :
  Dict.getd (fold_left (visit_pair label_to_type e sl) tls grouped) typename [] =
  Dict.getd grouped typename [] ++
  repeat (item_of e)
    (length (filter (maps_to label_to_type typename)
               (map (fun tl => (sl, tl)) tls))).
Proof.
  revert grouped. induction tls as [| tl tls IH]; intros grouped.
  - simpl. now rewrite app_nil_r.
  - cbn [fold_left map]. rewrite IH, visit_pair_getd, <- app_assoc. f_equal.
    rewrite <- repeat_app, <- length_app, <- filter_app. reflexivity.
Qed.

Lemma classify_edge_getd (label_to_type : Dict.t (label * label) string)
    (grouped : Dict.t string (list item)) (e : raw_edge) (typename : string) :
  Dict.getd (classify_edge label_to_type grouped e) typename [] =
  Dict.getd grouped typename [] ++
  repeat (item_of e) (length (matching_pairs label_to_type typename e)).
Proof.
  rewrite classify_edge_unfold. unfold matching_pairs.
  generalize (dst_labels e) as tls. intros tls.
  revert grouped. induction (src_labels e) as [| sl sls IH]; intros grouped.
  - simpl. now rewrite app_nil_r.
  - cbn [fold_left list_prod]. rewrite IH, fold_visit_pair_getd, <- app_assoc.
    f_equal. rewrite <- repeat_app, <- length_app, <- filter_app. reflexivity.
Qed.

Lemma init_grouped_getd (rel_def : rel_def_t) (typename : string) :
  Dict.getd (init_grouped rel_def) typename [] = [].
Proof.
  unfold init_grouped.
  apply (fold_left_invariant
           (fun g : Dict.t string (list item) => Dict.getd g typename [] = [])).
  - intros g k _ Hg. destruct (string_dec k typename) as [-> | Hne].
    + now rewrite DictFacts.getd_set_eq.
    + now rewrite DictFacts.getd_set_neq.
  - reflexivity.
Qed.

Lemma fold_classify_edge_getd (label_to_type : Dict.t (label * label) string)
    (triples : list raw_edge) (grouped : Dict.t string (list item))
    (typename : string) :
  Dict.getd (fold_left (classify_edge label_to_type) triples grouped) typename [] =
  Dict.getd grouped typename [] ++ classified label_to_type typename triples.
Proof.
  unfold classified. revert grouped.
  induction triples as [| e triples IH]; intros grouped; simpl.
  - now rewrite app_nil_r.
  - rewrite IH, classify_edge_getd, <- app_assoc. reflexivity.
Qed.

Lemma group_edges_getd (rel_def : rel_def_t) (triples : list raw_edge)
    (typename : string) :
  Dict.getd (group_edges rel_def triples) typename [] =
  classified (build_label_to_type rel_def) typename triples.
Proof.
  unfold group_edges.
  now rewrite fold_classify_edge_getd, init_grouped_getd.
Qed.

Lemma visit_pair_keys_nodup (label_to_type : Dict.t (label * label) string)
    (e : raw_edge) (sl tl : label) (grouped : Dict.t string (list item)) :
  NoDup (Dict.keys grouped) ->
  NoDup (Dict.keys (visit_pair label_to_type e sl grouped tl)).
Proof.
  intros Hnd. unfold visit_pair.
  destruct (Dict.get label_to_type (sl, tl)); [| exact Hnd].
  now apply DictFacts.NoDup_keys_set.
Qed.

Lemma group_edges_keys_nodup (rel_def : rel_def_t) (triples : list raw_edge) :
  NoDup (Dict.keys (group_edges rel_def triples)).
Proof.
  unfold group_edges.
  apply (fold_left_invariant
           (fun g : Dict.t string (list item) => NoDup (Dict.keys g))).
  - intros g e _ Hnd. rewrite classify_edge_unfold.
    apply (fold_left_invariant
             (fun g : Dict.t string (list item) => NoDup (Dict.keys g)));
      [| exact Hnd].
    intros g' sl _ Hnd'.
    apply (fold_left_invariant
             (fun g : Dict.t string (list item) => NoDup (Dict.keys g)));
      [| exact Hnd'].
    intros g'' tl _. apply visit_pair_keys_nodup.
  - unfold init_grouped.
    apply (fold_left_invariant
             (fun g : Dict.t string (list item) => NoDup (Dict.keys g))).
    + intros g k _. apply DictFacts.NoDup_keys_set.
    + constructor.
Qed.

(** ** Emission of the groups of one relationship type *)

Lemma emit_group_unfold (acc : Dict.t string ndarray * Dict.t string (list props))
    (typename : string) (items : list item) :
  emit_group acc (typename, items) =
  match items with
  | [] => acc
  | _ :: _ => (Dict.set (fst acc) typename (index_of items),
               Dict.set (snd acc) typename (feats_of items))
  end.
Proof. destruct acc as [indices attributes]. destruct items; reflexivity. Qed.

Lemma fold_emit_group_get (grouped : Dict.t string (list item))
    (acc : Dict.t string ndarray * Dict.t string (list props))
    (typename : string) :
  NoDup (Dict.keys grouped) ->
  Dict.get (fst (fold_left emit_group grouped acc)) typename =
    emitted index_of (Dict.get grouped typename) (Dict.get (fst acc) typename)
  /\ Dict.get (snd (fold_left emit_group grouped acc)) typename =
    emitted feats_of (Dict.get grouped typename) (Dict.get (snd acc) typename).
Proof.
  revert acc. induction grouped as [| [k items] grouped IH]; intros acc Hnd.
  - simpl. split; reflexivity.
  - inversion Hnd as [| ? ? Hnotin Hnd']; subst.
    cbn [fold_left]. destruct (IH (emit_group acc (k, items)) Hnd') as [IHi IHa].
    rewrite IHi, IHa. clear IHi IHa IH.
    rewrite emit_group_unfold. cbn [Dict.get].
    destruct (eq_dec typename k) as [-> | Hne].
    + apply DictFacts.get_None_iff in Hnotin. rewrite Hnotin. cbn [emitted].
      destruct items as [| i items]; cbn [fst snd].
      * split; reflexivity.
      * now rewrite !DictFacts.get_set_eq.
    + assert (Hne' : k <> typename) by congruence.
      destruct items as [| i items]; cbn [fst snd].
      * split; reflexivity.
      * now rewrite !DictFacts.get_set_neq by exact Hne'.
Qed.

Lemma emit_groups_get (grouped : Dict.t string (list item)) (typename : string) :
  NoDup (Dict.keys grouped) ->
  Dict.get (fst (emit_groups grouped)) typename =
    emitted index_of (Dict.get grouped typename) None
  /\ Dict.get (snd (emit_groups grouped)) typename =
    emitted feats_of (Dict.get grouped typename) None.
Proof. intros Hnd. exact (fold_emit_group_get grouped (Dict.empty, Dict.empty) typename Hnd). Qed.

(** ** The loop over relationship types *)

Lemma classify_reltype_unfold (relationships : relationships_t)
    (acc : edges_index_t * edges_attributes_t) (reltype : string)
    (triples : list raw_edge) :
  classify_reltype relationships acc (reltype, triples) =
  match Dict.get relationships reltype with
  | None => inl (KeyError reltype)
  | Some rel_def =>
      inr (Dict.set (Dict.set (fst acc) reltype Dict.empty) reltype
             (fst (emit_groups (group_edges rel_def triples))),
           Dict.set (Dict.set (snd acc) reltype Dict.empty) reltype
             (snd (emit_groups (group_edges rel_def triples))))
  end.
Proof.
  destruct acc as [edges_indices edges_attributes]. unfold classify_reltype.
  destruct (Dict.get relationships reltype) as [rel_def |]; [| reflexivity].
  destruct (emit_groups (group_edges rel_def triples)); reflexivity.
Qed.

Lemma for_each_classify_get (relationships : relationships_t)
    (tmp_edges : tmp_edges_t) (acc out : edges_index_t * edges_attributes_t)
    (reltype : string) :
  NoDup (Dict.keys tmp_edges) ->
  for_each_r (classify_reltype relationships) tmp_edges acc = inr out ->
  Dict.get (fst out) reltype =
    classified_entry relationships
      (fun rel_def triples => fst (emit_groups (group_edges rel_def triples)))
      reltype (Dict.get tmp_edges reltype) (Dict.get (fst acc) reltype)
  /\ Dict.get (snd out) reltype =
    classified_entry relationships
      (fun rel_def triples => snd (emit_groups (group_edges rel_def triples)))
      reltype (Dict.get tmp_edges reltype) (Dict.get (snd acc) reltype).
Proof.
  revert acc. induction tmp_edges as [| [k triples] tmp_edges IH]; intros acc Hnd Hrun.
  - simpl in Hrun. injection Hrun as <-. split; reflexivity.
  - inversion Hnd as [| ? ? Hnotin Hnd']; subst.
    cbn [for_each_r] in Hrun. rewrite classify_reltype_unfold in Hrun.
    destruct (Dict.get relationships k) as [rel_def |] eqn:Hdef; [| discriminate].
    destruct (IH _ Hnd' Hrun) as [IHi IHa]. rewrite IHi, IHa. clear IHi IHa IH.
    cbn [Dict.get fst snd].
    destruct (eq_dec reltype k) as [-> | Hne].
    + apply DictFacts.get_None_iff in Hnotin. rewrite Hnotin.
      cbn [classified_entry]. rewrite Hdef, !DictFacts.get_set_eq.
      split; reflexivity.
    + assert (Hne' : k <> reltype) by congruence.
      destruct (Dict.get tmp_edges reltype); cbn [classified_entry].
      * split; reflexivity.
      * now rewrite !DictFacts.get_set_neq by exact Hne'.
Qed.

Lemma classify_get (relationships : relationships_t) (tmp_edges : tmp_edges_t)
    (out : edges_index_t * edges_attributes_t) (reltype : string) :
  NoDup (Dict.keys tmp_edges) ->
  classify relationships tmp_edges = inr out ->
  Dict.get (fst out) reltype =
    classified_entry relationships
      (fun rel_def triples => fst (emit_groups (group_edges rel_def triples)))
      reltype (Dict.get tmp_edges reltype) None
  /\ Dict.get (snd out) reltype =
    classified_entry relationships
      (fun rel_def triples => snd (emit_groups (group_edges rel_def triples)))
      reltype (Dict.get tmp_edges reltype) None.
Proof.
  intros Hnd Hrun.
  exact (for_each_classify_get relationships tmp_edges (Dict.empty, Dict.empty)
           out reltype Hnd Hrun).
Qed.

(** The first relationship type without a declaration stops the loop. *)
Lemma for_each_classify_unknown (relationships : relationships_t)
    (tmp_edges : tmp_edges_t) (acc : edges_index_t * edges_attributes_t) :
  (exists k, In k (Dict.keys tmp_edges) /\ Dict.get relationships k = None) ->
  exists t, In t (Dict.keys tmp_edges) /\ Dict.get relationships t = None /\
    for_each_r (classify_reltype relationships) tmp_edges acc = inl (KeyError t).
Proof.
  revert acc. induction tmp_edges as [| [k triples] tmp_edges IH]; intros acc Hex.
  - destruct Hex as (k & [] & _).
  - cbn [for_each_r]. rewrite classify_reltype_unfold.
    destruct (Dict.get relationships k) as [rel_def |] eqn:Hdef.
    + destruct Hex as (k' & Hin & Hnone).
      assert (Hrest : exists k0, In k0 (Dict.keys tmp_edges)
                                 /\ Dict.get relationships k0 = None).
      { exists k'. split; [| exact Hnone].
        destruct Hin as [Heq | Hin]; [| exact Hin].
        simpl in Heq. subst k'. congruence. }
      destruct (IH (Dict.set (Dict.set (fst acc) k Dict.empty) k
                      (fst (emit_groups (group_edges rel_def triples))),
                    Dict.set (Dict.set (snd acc) k Dict.empty) k
                      (snd (emit_groups (group_edges rel_def triples)))) Hrest)
        as (t & Hin' & Hnone' & Hrun).
      exists t. split; [now right | split; [exact Hnone' | exact Hrun]].
    + exists k. split; [now left | split; [exact Hdef | reflexivity]].
Qed.

(** A relationship type whose declaration is there never raises. *)
Lemma for_each_classify_known (relationships : relationships_t)
    (tmp_edges : tmp_edges_t) (acc : edges_index_t * edges_attributes_t) :
  (forall k, In k (Dict.keys tmp_edges) -> Dict.get relationships k <> None) ->
  exists out, for_each_r (classify_reltype relationships) tmp_edges acc = inr out.
Proof.
  revert acc. induction tmp_edges as [| [k triples] tmp_edges IH]; intros acc Hall.
  - now exists acc.
  - cbn [for_each_r]. rewrite classify_reltype_unfold.
    destruct (Dict.get relationships k) as [rel_def |] eqn:Hdef.
    + apply IH. intros k' Hin. apply Hall. now right.
    + exfalso. apply (Hall k); [now left | exact Hdef].
Qed.

(** ** [retrieve_edges] *)

Lemma get_app_last {K V : Type} `{EqDec K} (d : Dict.t K V) (k : K) (v : V) :
  ~ In k (Dict.keys d) -> Dict.get (d ++ [(k, v)]) k = Some v.
Proof.
  induction d as [| [k' v'] d IH]; simpl.
  - intros _. destruct (eq_dec k k); congruence.
  - intros Hn. destruct (eq_dec k k') as [-> | Hne]; [exfalso; apply Hn; now left |].
    apply IH. tauto.
Qed.

Lemma keys_app {K V : Type} (d d' : Dict.t K V) :
  Dict.keys (d ++ d') = Dict.keys d ++ Dict.keys d'.
Proof. unfold Dict.keys. apply map_app. Qed.

Lemma get_edges_run (db : store) (s : label) (r : string) (d : label) (tr : trace) :
  get_edges db s r d tr =
  (tr ++ [EvRun (QEdges s r d)],
   match answer_edges db s r d with
   | inl e => inl e
   | inr rows => inr (edge_index_of rows, edge_attrs_of rows)
   end).
Proof.
  unfold get_edges, run_edges, bind, lift, emit_event, ret. simpl.
  destruct (answer_edges db s r d); reflexivity.
Qed.

Section RetrieveEdges.
Variable db : store.
Variable rows : label -> string -> label -> list edge_row.

Lemma keys_index_entries (key : string) (subdict : rel_def_t) :
  Dict.keys (map (index_entry rows key) subdict) = Dict.keys subdict.
Proof. unfold Dict.keys. rewrite map_map. reflexivity. Qed.

Lemma keys_attrs_entries (key : string) (subdict : rel_def_t) :
  Dict.keys (map (attrs_entry rows key) subdict) = Dict.keys subdict.
Proof. unfold Dict.keys. rewrite map_map. reflexivity. Qed.

Lemma fetch_subtypes_run (key : string) (rest : rel_def_t) :
  forall (ei0 : edges_index_t) (ea0 : edges_features_t)
         (inner_i : Dict.t string ndarray) (inner_a : Dict.t string (list pyval))
         (tr : trace),
    ~ In key (Dict.keys ei0) -> ~ In key (Dict.keys ea0) ->
    NoDup (Dict.keys rest) ->
    (forall k, In k (Dict.keys rest) -> ~ In k (Dict.keys inner_i)) ->
    (forall k, In k (Dict.keys rest) -> ~ In k (Dict.keys inner_a)) ->
    (forall type val, In (type, val) rest ->
       answer_edges db (source val) key (target val) =
       inr (rows (source val) key (target val))) ->
    exists tr',
      for_each (fetch_subtype db key) rest
        (ei0 ++ [(key, inner_i)], ea0 ++ [(key, inner_a)]) tr =
      (tr', inr (ei0 ++ [(key, inner_i ++ map (index_entry rows key) rest)],
                 ea0 ++ [(key, inner_a ++ map (attrs_entry rows key) rest)])).
Proof.
  induction rest as [| [type val] rest IH];
    intros ei0 ea0 inner_i inner_a tr Hki Hka Hnd Hdi Hda Hok.
  - exists tr. simpl. now rewrite !app_nil_r.
  - inversion Hnd as [| ? ? Hnotin Hnd']; subst.
    cbn [for_each]. unfold bind at 1. cbn [fetch_subtype].
    unfold bind at 1. rewrite get_edges_run.
    rewrite (Hok type val) by now left. cbn [ret].
    unfold Dict.getd. rewrite !get_app_last by assumption.
    rewrite (DictFacts.set_notin inner_i) by (apply Hdi; now left).
    rewrite (DictFacts.set_notin inner_a) by (apply Hda; now left).
    rewrite !DictFacts.set_last by assumption.
    destruct (IH ei0 ea0
                (inner_i ++ [(type, edge_index_of (rows (source val) key (target val)))])
                (inner_a ++ [(type, edge_attrs_of (rows (source val) key (target val)))])
                (tr ++ [EvRun (QEdges (source val) key (target val))])
                Hki Hka Hnd') as (tr' & Hrun).
    + intros k Hin. rewrite keys_app, in_app_iff. simpl.
      intros [Hin' | [Heq | []]].
      * apply (Hdi k); [now right | exact Hin'].
      * subst k. now apply Hnotin.
    + intros k Hin. rewrite keys_app, in_app_iff. simpl.
      intros [Hin' | [Heq | []]].
      * apply (Hda k); [now right | exact Hin'].
      * subst k. now apply Hnotin.
    + intros type' val' Hin. apply (Hok type' val'). now right.
    + exists tr'. eapply eq_trans; [exact Hrun |]. cbn [map]. now rewrite <- !app_assoc.
Qed.

Lemma fetch_reltypes_run (rest : relationships_t) :
  forall (ei : edges_index_t) (ea : edges_features_t) (tr : trace),
    NoDup (Dict.keys rest) ->
    (forall k, In k (Dict.keys rest) -> ~ In k (Dict.keys ei)) ->
    (forall k, In k (Dict.keys rest) -> ~ In k (Dict.keys ea)) ->
    (forall key subdict, In (key, subdict) rest -> NoDup (Dict.keys subdict)) ->
    (forall key subdict type val,
       In (key, subdict) rest -> In (type, val) subdict ->
       answer_edges db (source val) key (target val) =
       inr (rows (source val) key (target val))) ->
    exists tr',
      for_each (fetch_reltype db) rest (ei, ea) tr =
      (tr', inr (ei ++ map (index_group rows) rest, ea ++ map (attrs_group rows) rest)).
Proof.
  induction rest as [| [key subdict] rest IH];
    intros ei ea tr Hnd Hdi Hda Hsub Hok.
  - exists tr. simpl. now rewrite !app_nil_r.
  - inversion Hnd as [| ? ? Hnotin Hnd']; subst.
    cbn [for_each]. unfold bind at 1. cbn [fetch_reltype Dict.items].
    rewrite (DictFacts.set_notin ei) by (apply Hdi; now left).
    rewrite (DictFacts.set_notin ea) by (apply Hda; now left).
    destruct (fetch_subtypes_run key subdict ei ea Dict.empty Dict.empty tr)
      as (tr1 & Hinner).
    + apply Hdi. now left.
    + apply Hda. now left.
    + apply (Hsub key). now left.
    + intros k _ [].
    + intros k _ [].
    + intros type val Hin. apply (Hok key subdict type val); [now left | exact Hin].
    + match goal with
      | |- context [for_each (fetch_subtype db key) ?l ?s ?t] =>
          replace (for_each (fetch_subtype db key) l s t)
            with (tr1, @inr exn (edges_index_t * edges_features_t)
                         (ei ++ [(key, map (index_entry rows key) subdict)],
                          ea ++ [(key, map (attrs_entry rows key) subdict)]))
            by (symmetry; exact Hinner)
      end.
      destruct (IH (ei ++ [(key, map (index_entry rows key) subdict)])
                  (ea ++ [(key, map (attrs_entry rows key) subdict)]) tr1 Hnd')
        as (tr' & Hrun).
      * intros k Hin. rewrite keys_app, in_app_iff. simpl.
        intros [Hin' | [Heq | []]].
        -- apply (Hdi k); [now right | exact Hin'].
        -- subst k. now apply Hnotin.
      * intros k Hin. rewrite keys_app, in_app_iff. simpl.
        intros [Hin' | [Heq | []]].
        -- apply (Hda k); [now right | exact Hin'].
        -- subst k. now apply Hnotin.
      * intros key' subdict' Hin. apply (Hsub key'). now right.
      * intros key' subdict' type val Hin. apply (Hok key' subdict' type val). now right.
      * exists tr'. eapply eq_trans; [exact Hrun |]. cbn [map]. now rewrite <- !app_assoc.
Qed.

Lemma retrieve_edges_run (relationship_dict : relationships_t) (tr : trace) :
  NoDup (Dict.keys relationship_dict) ->
  (forall key subdict, In (key, subdict) relationship_dict ->
     NoDup (Dict.keys subdict)) ->
  (forall key subdict type val,
     In (key, subdict) relationship_dict -> In (type, val) subdict ->
     answer_edges db (source val) key (target val) =
     inr (rows (source val) key (target val))) ->
  exists tr',
    retrieve_edges db relationship_dict tr =
    (tr', inr (map (index_group rows) relationship_dict,
               map (attrs_group rows) relationship_dict)).
Proof.
  intros Hnd Hsub Hok. unfold retrieve_edges, Dict.items.
  destruct (fetch_reltypes_run relationship_dict Dict.empty Dict.empty tr Hnd)
    as (tr' & Hrun); try assumption.
  - intros k _ [].
  - intros k _ [].
  - exists tr'. exact Hrun.
Qed.
End RetrieveEdges.

(** ** [get_nodes] *)

Lemma get_nodes_run (db : store) (lab : label) (tr : trace) :
  get_nodes db lab tr =
  match answer_nodes db lab with
  | inl e =>
      (if is_query_error e
       then (tr ++ [EvRun (QNodes lab)]) ++ [EvLogError (QNodes lab) e]
       else tr ++ [EvRun (QNodes lab)],
       inl e)
  | inr results =>
      (tr ++ [EvRun (QNodes lab)],
       inr (map value_id results, map features results))
  end.
Proof.
  unfold get_nodes, log_and_reraise, run_nodes, bind, lift, emit_event, ret.
  simpl. destruct (answer_nodes db lab) as [e | results]; [| reflexivity].
  destruct (is_query_error e); reflexivity.
Qed.

(** What a successful call leaves under one relationship type and one
    sub-type, traced back to the paths of the expansion. *)
Lemma retrieve_subgraph_entry (db : store) (relationships : relationships_t)
    (q : string) (depth : Z) (tr tr' : trace)
    (nodes_ids : nodes_ids_t) (nodes_features : nodes_features_t)
    (edges_indices : edges_index_t) (edges_attributes : edges_attributes_t) :
  retrieve_subgraph db relationships q depth tr =
    (tr', inr (nodes_ids, nodes_features, edges_indices, edges_attributes)) ->
  exists seed_result,
    answer_filter db q = inr seed_result /\
    ((map node_id seed_result = [] /\
      edges_indices = Dict.empty /\ edges_attributes = Dict.empty) \/
     exists paths,
       answer_expand db depth (map node_id seed_result) = inr paths /\
       forall reltype,
         Dict.get edges_indices reltype =
           classified_entry relationships
             (fun rel_def triples => fst (emit_groups (group_edges rel_def triples)))
             reltype (Dict.get (snd (collect paths)) reltype) None
         /\ Dict.get edges_attributes reltype =
           classified_entry relationships
             (fun rel_def triples => snd (emit_groups (group_edges rel_def triples)))
             reltype (Dict.get (snd (collect paths)) reltype) None).
Proof.
  rewrite retrieve_subgraph_run.
  destruct (answer_filter db q) as [e | seed_result]; [discriminate |].
  intros Hrun. exists seed_result. split; [reflexivity |].
  destruct (map node_id seed_result) as [| i ids].
  - left. unfold empty_snapshot in Hrun.
    split; [reflexivity | split; congruence].
  - right. cbv zeta in Hrun.
    destruct (answer_expand db depth (i :: ids)) as [e | paths] eqn:Hexp;
      [discriminate |].
    destruct (classify relationships (snd (collect paths)))
      as [e | [ei ea]] eqn:Hcls; [discriminate |].
    exists paths. split; [reflexivity |]. intros reltype.
    assert (Hei : ei = edges_indices) by congruence.
    assert (Hea : ea = edges_attributes) by congruence.
    subst ei ea.
    exact (classify_get relationships (snd (collect paths))
             (edges_indices, edges_attributes) reltype
             (collect_keys_nodup paths) Hcls).
Qed.

(** ** Edges without a matching label pair *)

Lemma fold_left_id {A S : Type} (f : S -> A -> S) (l : list A) (s : S) :
  (forall s' a, In a l -> f s' a = s') -> fold_left f l s = s.
Proof.
  induction l as [| a l IH]; simpl; intros Hid; [reflexivity |].
  rewrite Hid by now left. apply IH. intros s' a' Hin. apply Hid. now right.
Qed.

Lemma classify_edge_unmatched (label_to_type : Dict.t (label * label) string)
    (grouped : Dict.t string (list item)) (e : raw_edge) :
  (forall sl tl, In sl (src_labels e) -> In tl (dst_labels e) ->
     Dict.get label_to_type (sl, tl) = None) ->
  classify_edge label_to_type grouped e = grouped.
Proof.
  intros Hnone. rewrite classify_edge_unfold.
  apply fold_left_id. intros g sl Hsl.
  apply fold_left_id. intros g' tl Htl.
  unfold visit_pair. now rewrite (Hnone sl tl Hsl Htl).
Qed.

Lemma group_edges_unmatched (rel_def : rel_def_t) (before after : list raw_edge)
    (e : raw_edge) :
  (forall sl tl, In sl (src_labels e) -> In tl (dst_labels e) ->
     Dict.get (build_label_to_type rel_def) (sl, tl) = None) ->
  group_edges rel_def (before ++ e :: after) = group_edges rel_def (before ++ after).
Proof.
  intros Hnone. unfold group_edges. rewrite !fold_left_app. cbn [fold_left].
  now rewrite classify_edge_unmatched.
Qed.

(** ** The key structure of [retrieve_edges] *)

Lemma get_map_entries {K V W : Type} `{EqDec K} (f : K -> V -> W)
    (d : Dict.t K V) (k : K) :
  Dict.get (map (fun kv => (fst kv, f (fst kv) (snd kv))) d) k =
  option_map (f k) (Dict.get d k).
Proof.
  induction d as [| [k' v] d IH]; simpl; [reflexivity |].
  destruct (eq_dec k k') as [-> | Hne]; [reflexivity | exact IH].
Qed.

Lemma get_map_entries_Some {K V W : Type} `{EqDec K} (f : K -> V -> W)
    (d : Dict.t K V) (k : K) (v : V) :
  Dict.get d k = Some v ->
  Dict.get (map (fun kv => (fst kv, f (fst kv) (snd kv))) d) k = Some (f k v).
Proof. intros Hget. rewrite get_map_entries, Hget. reflexivity. Qed.

Lemma keys_map_entries {K V W : Type} (f : K -> V -> W) (d : Dict.t K V) :
  Dict.keys (map (fun kv => (fst kv, f (fst kv) (snd kv))) d) = Dict.keys d.
Proof. unfold Dict.keys. rewrite map_map. reflexivity. Qed.

(** * The claims *)

(** C1: when the traversal result holds a relationship whose type has no
    entry in the caller's declaration, [retrieve_subgraph] fails: the lookup
    [relationships[reltype]] raises [KeyError] for such a type (the
    exception that plays the role of the spec's UnknownRelationshipType),
    after the expansion query and before anything is returned. *)
Theorem unknown_relationship_type_raises (db : store)
    (relationships : relationships_t) (q : string) (depth : Z) (tr : trace)
    (seed_result : list node) (paths : list path) (r : relationship) :
  answer_filter db q = inr seed_result ->
  map node_id seed_result <> [] ->
  answer_expand db depth (map node_id seed_result) = inr paths ->
  In r (traversed paths) ->
  Dict.get relationships (rel_type r) = None ->
  exists t,
    In t (map rel_type (traversed paths)) /\
    Dict.get relationships t = None /\
    retrieve_subgraph db relationships q depth tr =
      (tr ++ [EvRun (QFilter q); ev_starting;
              EvRun (QExpand depth (map node_id seed_result))],
       inl (KeyError t)).
Proof.
  intros Hseed Hne Hexp Hin Hnone.
  destruct (for_each_classify_unknown relationships (snd (collect paths))
              (Dict.empty, Dict.empty)) as (t & Hkey & Ht & Hrun).
  { exists (rel_type r). split; [| exact Hnone].
    apply collect_keys. now exists r. }
  exists t. split; [| split; [exact Ht |]].
  - apply collect_keys in Hkey. destruct Hkey as (r' & Hin' & <-).
    now apply in_map.
  - rewrite retrieve_subgraph_run, Hseed.
    destruct (map node_id seed_result) as [| i ids] eqn:Hids; [congruence |].
    cbv zeta. rewrite Hexp. unfold classify, Dict.items. rewrite Hrun.
    unfold ev_filter, ev_expand. now rewrite <- !app_assoc.
Qed.

Lemma unknown_relationship_type_raises_witness :
  answer_filter (graph_store [alice] [one_hop; fork_hop]) seed_query = inr [alice]
  /\ map node_id [alice] <> []
  /\ In pulse_forked_from_pulse (traversed [one_hop; fork_hop])
  /\ Dict.get owns_schema (rel_type pulse_forked_from_pulse) = None
  /\ exists t,
       In t (map rel_type (traversed [one_hop; fork_hop])) /\
       Dict.get owns_schema t = None /\
       retrieve_subgraph (graph_store [alice] [one_hop; fork_hop]) owns_schema
         seed_query 1 [] =
         ([EvRun (QFilter seed_query); ev_starting; EvRun (QExpand 1 [1%Z])],
          inl (KeyError t)).
Proof.
  split; [reflexivity |].
  split; [discriminate |].
  split; [simpl; tauto |].
  split; [reflexivity |].
  apply (unknown_relationship_type_raises
           (graph_store [alice] [one_hop; fork_hop]) owns_schema seed_query 1 []
           [alice] [one_hop; fork_hop] pulse_forked_from_pulse).
  - reflexivity.
  - discriminate.
  - reflexivity.
  - simpl; tauto.
  - reflexivity.
Defined.

(** C2, as the code has it: the two nested loops over the source labels
    and the destination labels never stop early, so a raw edge is appended
    to the group of every label pair found in the lookup, once per such
    pair and in iteration order; the group of a sub-type grows by as many
    copies of the edge as there are pairs the lookup sends to it. *)
Theorem edge_joins_every_matching_group
    (label_to_type : Dict.t (label * label) string)
    (grouped : Dict.t string (list item)) (e : raw_edge) (typename : string) :
  Dict.getd (classify_edge label_to_type grouped e) typename [] =
  Dict.getd grouped typename [] ++
  repeat (src_id e, dst_id e, edge_props e)
    (length (filter (maps_to label_to_type typename)
               (list_prod (src_labels e) (dst_labels e)))).
Proof. exact (classify_edge_getd label_to_type grouped e typename). Qed.

(** C2 fails as stated: the edge from a node labelled both [User] and
    [Admin] to a [Repo] node is placed in the group of [owns_repo] and in
    the group of [admin_repo]. *)
Lemma edge_lands_in_two_groups :
  Dict.get (group_edges owns_rel_def [to_raw_edge root_owns_pulse]) "owns_repo" =
    Some [(3%Z, 2%Z, [])]
  /\ Dict.get (group_edges owns_rel_def [to_raw_edge root_owns_pulse]) "admin_repo" =
    Some [(3%Z, 2%Z, [])]
  /\ snd (retrieve_subgraph (graph_store [root] [admin_hop]) owns_schema
            seed_query 1 []) =
     inr ([("User", [3%Z]); ("Admin", [3%Z]); ("Repo", [2%Z])],
          [("User", [[]]); ("Admin", [[]]); ("Repo", [node_props pulse])],
          [("owns", [("owns_repo", [[3%Z]; [2%Z]]);
                     ("admin_repo", [[3%Z]; [2%Z]])])],
          [("owns", [("owns_repo", [[]]); ("admin_repo", [[]])])]).
Proof. split; [reflexivity | split; reflexivity]. Qed.

(** C3, as the code has it: the raw edge list of a relationship type holds
    one entry for every position a relationship of that type has in the
    paths of the traversal, in traversal order; a relationship instance that
    lies on several paths contributes one entry per path. *)
Theorem raw_edges_follow_traversal (paths : list path) (reltype : string) :
  Dict.getd (snd (collect paths)) reltype [] =
    map to_raw_edge (filter (has_type reltype) (traversed paths))
  /\ length (Dict.getd (snd (collect paths)) reltype []) =
     length (filter (has_type reltype) (traversed paths)).
Proof.
  rewrite collect_getd. split; [reflexivity | apply length_map].
Qed.

(** C3 fails as stated: one relationship instance (identity 10) lying on
    two paths gives two raw edges and two columns of the edge index. *)
Lemma shared_relationship_counted_twice :
  map rel_id (filter (has_type "owns") (traversed [one_hop; one_hop_back])) =
    [10%Z; 10%Z]
  /\ length (Dict.getd (snd (collect [one_hop; one_hop_back])) "owns" []) = 2
  /\ snd (retrieve_subgraph (graph_store [alice; pulse] [one_hop; one_hop_back])
            owns_schema seed_query 1 []) =
     inr ([("User", [1%Z]); ("Repo", [2%Z])],
          [("User", [node_props alice]); ("Repo", [node_props pulse])],
          [("owns", [("owns_repo", [[1%Z; 1%Z]; [2%Z; 2%Z]])])],
          [("owns", [("owns_repo", [rel_props alice_owns_pulse;
                                    rel_props alice_owns_pulse])])]).
Proof. split; [reflexivity | split; reflexivity]. Qed.

(** C4: in the node-id mapping returned by [retrieve_subgraph], no label
    bucket holds the same node identity twice, however many paths (or
    positions of one path) the node appears in. *)
Theorem node_buckets_have_no_duplicates (db : store)
    (relationships : relationships_t) (q : string) (depth : Z)
    (tr tr' : trace) (nodes_ids : nodes_ids_t) (nodes_features : nodes_features_t)
    (edges_indices : edges_index_t) (edges_attributes : edges_attributes_t)
    (lab : label) (bucket : list Z) :
  retrieve_subgraph db relationships q depth tr =
    (tr', inr (nodes_ids, nodes_features, edges_indices, edges_attributes)) ->
  Dict.get nodes_ids lab = Some bucket ->
  NoDup bucket.
Proof.
  rewrite retrieve_subgraph_run. intros Hrun Hget.
  destruct (answer_filter db q) as [e | seed_result]; [discriminate |].
  destruct (map node_id seed_result) as [| i ids].
  - injection Hrun as _ <- _ _ _. discriminate.
  - cbv zeta in Hrun.
    destruct (answer_expand db depth (i :: ids)) as [e | paths]; [discriminate |].
    destruct (classify relationships (snd (collect paths))) as [e | [ei ea]];
      [discriminate |].
    injection Hrun as _ <- _ _ _. exact (collect_nodup paths lab bucket Hget).
Qed.

Lemma node_buckets_have_no_duplicates_witness :
  retrieve_subgraph (graph_store [alice] [one_hop; round_trip]) owns_schema
    seed_query 2 [] =
    ([ev_filter seed_query; ev_starting; ev_expand 2 [1%Z]; ev_finished],
     inr ([("User", [1%Z]); ("Repo", [2%Z])],
          [("User", [node_props alice]); ("Repo", [node_props pulse])],
          [("owns", [("owns_repo", [[1%Z; 1%Z]; [2%Z; 2%Z]])])],
          [("owns", [("owns_repo", [rel_props alice_owns_pulse;
                                    rel_props alice_owns_pulse])])]))
  /\ Dict.get [("User", [1%Z]); ("Repo", [2%Z])] "User" = Some [1%Z]
  /\ NoDup [1%Z].
Proof.
  assert (Hrun : retrieve_subgraph (graph_store [alice] [one_hop; round_trip])
                   owns_schema seed_query 2 [] =
                 ([ev_filter seed_query; ev_starting; ev_expand 2 [1%Z]; ev_finished],
                  inr ([("User", [1%Z]); ("Repo", [2%Z])],
                       [("User", [node_props alice]); ("Repo", [node_props pulse])],
                       [("owns", [("owns_repo", [[1%Z; 1%Z]; [2%Z; 2%Z]])])],
                       [("owns", [("owns_repo", [rel_props alice_owns_pulse;
                                                 rel_props alice_owns_pulse])])])))
    by reflexivity.
  assert (Hget : Dict.get [("User", [1%Z]); ("Repo", [2%Z])] "User" = Some [1%Z])
    by reflexivity.
  split; [exact Hrun | split; [exact Hget |]].
  exact (node_buckets_have_no_duplicates
           (graph_store [alice] [one_hop; round_trip]) owns_schema seed_query 2
           [] _ _ _ _ _ "User" [1%Z] Hrun Hget).
Defined.

(** C5: when the seed filter query yields no node, [retrieve_subgraph]
    returns the four empty mappings without raising; the only query sent is
    the filter query itself (no expansion query, nothing printed). *)
Theorem empty_seed_returns_empty_snapshot (db : store)
    (relationships : relationships_t) (q : string) (depth : Z) (tr : trace) :
  answer_filter db q = inr [] ->
  retrieve_subgraph db relationships q depth tr =
    (tr ++ [EvRun (QFilter q)], inr (Dict.empty, Dict.empty, Dict.empty, Dict.empty)).
Proof.
  intros Hseed. rewrite retrieve_subgraph_run, Hseed. reflexivity.
Qed.

Lemma empty_seed_returns_empty_snapshot_witness :
  answer_filter (graph_store [] [one_hop]) seed_query = inr []
  /\ retrieve_subgraph (graph_store [] [one_hop]) owns_schema seed_query 2 [] =
     ([EvRun (QFilter seed_query)],
      inr (Dict.empty, Dict.empty, Dict.empty, Dict.empty)).
Proof.
  split; [reflexivity |].
  apply (empty_seed_returns_empty_snapshot (graph_store [] [one_hop])
           owns_schema seed_query 2 []).
  reflexivity.
Defined.

(** C6: every edge-index array that [retrieve_subgraph] emits for a
    sub-type is built from a non-empty list of classified items, taken in
    the order classification met them: it has two rows of M columns, row 0
    the source ids and row 1 the destination ids, and the property list
    stored under the same keys holds the M property dictionaries in the same
    order. *)
Theorem emitted_edge_index_is_aligned (db : store)
    (relationships : relationships_t) (q : string) (depth : Z) (tr tr' : trace)
    (nodes_ids : nodes_ids_t) (nodes_features : nodes_features_t)
    (edges_indices : edges_index_t) (edges_attributes : edges_attributes_t)
    (reltype typename : string) (inner : Dict.t string ndarray) (arr : ndarray) :
  retrieve_subgraph db relationships q depth tr =
    (tr', inr (nodes_ids, nodes_features, edges_indices, edges_attributes)) ->
  Dict.get edges_indices reltype = Some inner ->
  Dict.get inner typename = Some arr ->
  exists seed_result paths rel_def items inner_attrs feats,
    answer_filter db q = inr seed_result /\
    answer_expand db depth (map node_id seed_result) = inr paths /\
    Dict.get relationships reltype = Some rel_def /\
    items = classified (build_label_to_type rel_def) typename
              (map to_raw_edge (filter (has_type reltype) (traversed paths))) /\
    items <> [] /\
    arr = [map (fun e => fst (fst e)) items; map (fun e => snd (fst e)) items] /\
    shape arr = (2, length items) /\
    Dict.get edges_attributes reltype = Some inner_attrs /\
    Dict.get inner_attrs typename = Some feats /\
    feats = map snd items /\
    length feats = length items.
Proof.
  intros Hrun Hrel Htyp.
  destruct (retrieve_subgraph_entry _ _ _ _ _ _ _ _ _ _ Hrun)
    as (seed_result & Hseed & [(_ & -> & _) | (paths & Hexp & Hentry)]);
    [discriminate |].
  destruct (Hentry reltype) as [Hi Ha]. rewrite Hrel in Hi.
  destruct (Dict.get (snd (collect paths)) reltype) as [triples |] eqn:Hraw;
    [| discriminate].
  cbn [classified_entry] in Hi, Ha.
  destruct (Dict.get relationships reltype) as [rel_def |] eqn:Hdef;
    [| discriminate].
  injection Hi as ->.
  destruct (emit_groups_get (group_edges rel_def triples) typename
              (group_edges_keys_nodup rel_def triples)) as [Hgi Hga].
  rewrite Htyp in Hgi.
  pose proof (group_edges_getd rel_def triples typename) as Hitems.
  unfold Dict.getd in Hitems.
  destruct (Dict.get (group_edges rel_def triples) typename)
    as [[| i items] |]; cbn [emitted] in Hgi, Hga; try discriminate.
  apply collect_get in Hraw.
  exists seed_result, paths, rel_def, (i :: items),
    (snd (emit_groups (group_edges rel_def triples))), (feats_of (i :: items)).
  repeat split; try assumption.
  - now rewrite <- Hraw.
  - discriminate.
  - now injection Hgi as ->.
  - injection Hgi as ->. unfold shape, index_of, np_array.
    cbn [length]. now rewrite length_map.
  - unfold feats_of. now rewrite length_map.
Qed.

Lemma emitted_edge_index_is_aligned_witness :
  exists seed_result paths rel_def items inner_attrs feats,
    answer_filter (graph_store [alice] [one_hop; round_trip]) seed_query =
      inr seed_result /\
    answer_expand (graph_store [alice] [one_hop; round_trip]) 2
      (map node_id seed_result) = inr paths /\
    Dict.get owns_schema "owns" = Some rel_def /\
    items = classified (build_label_to_type rel_def) "owns_repo"
              (map to_raw_edge (filter (has_type "owns") (traversed paths))) /\
    items <> [] /\
    [[1%Z; 1%Z]; [2%Z; 2%Z]] =
      [map (fun e => fst (fst e)) items; map (fun e => snd (fst e)) items] /\
    shape [[1%Z; 1%Z]; [2%Z; 2%Z]] = (2, length items) /\
    Dict.get [("owns", [("owns_repo", [rel_props alice_owns_pulse;
                                       rel_props alice_owns_pulse])])] "owns" =
      Some inner_attrs /\
    Dict.get inner_attrs "owns_repo" = Some feats /\
    feats = map snd items /\
    length feats = length items.
Proof.
  apply (emitted_edge_index_is_aligned
           (graph_store [alice] [one_hop; round_trip]) owns_schema seed_query 2
           [] [ev_filter seed_query; ev_starting; ev_expand 2 [1%Z]; ev_finished]
           [("User", [1%Z]); ("Repo", [2%Z])]
           [("User", [node_props alice]); ("Repo", [node_props pulse])]
           [("owns", [("owns_repo", [[1%Z; 1%Z]; [2%Z; 2%Z]])])]
           [("owns", [("owns_repo", [rel_props alice_owns_pulse;
                                     rel_props alice_owns_pulse])])]
           "owns" "owns_repo" [("owns_repo", [[1%Z; 1%Z]; [2%Z; 2%Z]])]
           [[1%Z; 1%Z]; [2%Z; 2%Z]]); reflexivity.
Defined.

(** C7: a sub-type declared for a relationship type and left with no
    classified edge has no key in the edge-index mapping nor in the
    edge-attribute mapping of that relationship type. *)
Theorem empty_subtypes_are_omitted (db : store)
    (relationships : relationships_t) (q : string) (depth : Z) (tr tr' : trace)
    (nodes_ids : nodes_ids_t) (nodes_features : nodes_features_t)
    (edges_indices : edges_index_t) (edges_attributes : edges_attributes_t)
    (seed_result : list node) (paths : list path)
    (reltype typename : string) (rel_def : rel_def_t) :
  retrieve_subgraph db relationships q depth tr =
    (tr', inr (nodes_ids, nodes_features, edges_indices, edges_attributes)) ->
  answer_filter db q = inr seed_result ->
  answer_expand db depth (map node_id seed_result) = inr paths ->
  Dict.get relationships reltype = Some rel_def ->
  In typename (Dict.keys rel_def) ->
  classified (build_label_to_type rel_def) typename
    (map to_raw_edge (filter (has_type reltype) (traversed paths))) = [] ->
  subtype_entry edges_indices reltype typename = None /\
  subtype_entry edges_attributes reltype typename = None.
Proof.
  intros Hrun Hseed Hexp Hdef _ Hnone.
  destruct (retrieve_subgraph_entry _ _ _ _ _ _ _ _ _ _ Hrun)
    as (seed_result' & Hseed' & [(_ & -> & ->) | (paths' & Hexp' & Hentry)]);
    [split; reflexivity |].
  assert (seed_result' = seed_result) by congruence. subst seed_result'.
  assert (paths' = paths) by congruence. subst paths'.
  destruct (Hentry reltype) as [Hi Ha]. unfold subtype_entry.
  rewrite Hi, Ha. clear Hi Ha.
  destruct (Dict.get (snd (collect paths)) reltype) as [triples |] eqn:Hraw;
    cbn [classified_entry]; [| split; reflexivity].
  rewrite Hdef. apply collect_get in Hraw. rewrite <- Hraw in Hnone.
  destruct (emit_groups_get (group_edges rel_def triples) typename
              (group_edges_keys_nodup rel_def triples)) as [Hgi Hga].
  rewrite Hgi, Hga. rewrite <- group_edges_getd in Hnone.
  unfold Dict.getd in Hnone.
  destruct (Dict.get (group_edges rel_def triples) typename) as [items |];
    [subst items |]; split; reflexivity.
Qed.

Lemma empty_subtypes_are_omitted_witness :
  Dict.get owns_schema "owns" = Some owns_rel_def
  /\ In "admin_repo" (Dict.keys owns_rel_def)
  /\ classified (build_label_to_type owns_rel_def) "admin_repo"
       (map to_raw_edge (filter (has_type "owns") (traversed [one_hop]))) = []
  /\ subtype_entry [("owns", [("owns_repo", [[1%Z]; [2%Z]])])] "owns" "admin_repo"
     = None
  /\ subtype_entry [("owns", [("owns_repo", [rel_props alice_owns_pulse])])]
       "owns" "admin_repo" = None.
Proof.
  split; [reflexivity |].
  split; [simpl; tauto |].
  split; [reflexivity |].
  apply (empty_subtypes_are_omitted
           (graph_store [alice] [one_hop]) owns_schema seed_query 1 []
           [ev_filter seed_query; ev_starting; ev_expand 1 [1%Z]; ev_finished]
           [("User", [1%Z]); ("Repo", [2%Z])]
           [("User", [node_props alice]); ("Repo", [node_props pulse])]
           [("owns", [("owns_repo", [[1%Z]; [2%Z]])])]
           [("owns", [("owns_repo", [rel_props alice_owns_pulse])])]
           [alice] [one_hop] "owns" "admin_repo" owns_rel_def).
  - reflexivity.
  - reflexivity.
  - reflexivity.
  - reflexivity.
  - simpl; tauto.
  - reflexivity.
Defined.

(** C8, as the code has it: a raw edge of a declared relationship type
    none of whose label pairs is in the lookup changes no group, so the
    groups and the arrays emitted for its relationship type are those of
    the same edge list without it, and classifying that type raises
    nothing.  No count of such edges is kept or returned. *)
Theorem unmatched_edge_is_dropped (relationships : relationships_t)
    (acc : edges_index_t * edges_attributes_t) (reltype : string)
    (rel_def : rel_def_t) (before after : list raw_edge) (e : raw_edge) :
  Dict.get relationships reltype = Some rel_def ->
  (forall sl tl, In sl (src_labels e) -> In tl (dst_labels e) ->
     Dict.get (build_label_to_type rel_def) (sl, tl) = None) ->
  (forall grouped,
     classify_edge (build_label_to_type rel_def) grouped e = grouped)
  /\ classify_reltype relationships acc (reltype, before ++ e :: after) =
     classify_reltype relationships acc (reltype, before ++ after)
  /\ exists out,
       classify_reltype relationships acc (reltype, before ++ e :: after) = inr out.
Proof.
  intros Hdef Hnone. split; [| split].
  - intros grouped. now apply classify_edge_unmatched.
  - rewrite !classify_reltype_unfold, Hdef.
    now rewrite (group_edges_unmatched rel_def before after e Hnone).
  - rewrite classify_reltype_unfold, Hdef. eexists. reflexivity.
Qed.

Lemma unmatched_edge_is_dropped_witness :
  Dict.get owns_schema "owns" = Some owns_rel_def
  /\ classify_reltype owns_schema (Dict.empty, Dict.empty)
       ("owns", [to_raw_edge alice_owns_pulse] ++
                to_raw_edge pulse_owns_alice :: []) =
     classify_reltype owns_schema (Dict.empty, Dict.empty)
       ("owns", [to_raw_edge alice_owns_pulse] ++ [])
  /\ exists out,
       classify_reltype owns_schema (Dict.empty, Dict.empty)
         ("owns", [to_raw_edge alice_owns_pulse] ++
                  to_raw_edge pulse_owns_alice :: []) = inr out.
Proof.
  split; [reflexivity |].
  apply (unmatched_edge_is_dropped owns_schema (Dict.empty, Dict.empty) "owns"
           owns_rel_def [to_raw_edge alice_owns_pulse] []
           (to_raw_edge pulse_owns_alice)).
  - reflexivity.
  - intros sl tl [<- | []] [<- | []]. reflexivity.
Defined.

(** C8 fails as stated: a run with one discarded edge and a run with none
    return the same value and leave the same events, so nothing the caller
    receives tells the number of discards. *)
Lemma discard_is_not_reported :
  discard_count owns_schema [round_trip] = 1
  /\ discard_count owns_schema [one_hop] = 0
  /\ retrieve_subgraph (graph_store [alice] [round_trip]) owns_schema seed_query 2 []
     = retrieve_subgraph (graph_store [alice] [one_hop]) owns_schema seed_query 2 [].
Proof. split; [reflexivity | split; reflexivity]. Qed.

(** C9: a driver or protocol error raised by the store while
    [retrieve_subgraph] runs its filter query or its expansion query
    reaches the caller as that exception, and nothing is returned; in
    [get_nodes] the error is logged and raised again.  Conversely a returned
    snapshot means every query that was sent was answered in full: it is
    the empty snapshot of an empty seed list, or it is built from all the
    paths of the expansion. *)
Theorem store_failure_aborts_extraction (db : store)
    (relationships : relationships_t) (q : string) (depth : Z) (tr : trace)
    (e : exn) :
  is_query_error e = true ->
  (answer_filter db q = inl e ->
   retrieve_subgraph db relationships q depth tr =
     (tr ++ [EvRun (QFilter q)], inl e))
  /\ (forall seed_result,
        answer_filter db q = inr seed_result ->
        map node_id seed_result <> [] ->
        answer_expand db depth (map node_id seed_result) = inl e ->
        retrieve_subgraph db relationships q depth tr =
          (tr ++ [EvRun (QFilter q); ev_starting;
                  EvRun (QExpand depth (map node_id seed_result))],
           inl e))
  /\ (forall lab,
        answer_nodes db lab = inl e ->
        get_nodes db lab tr =
          (tr ++ [EvRun (QNodes lab); EvLogError (QNodes lab) e], inl e))
  /\ (forall tr' snap,
        retrieve_subgraph db relationships q depth tr = (tr', inr snap) ->
        exists seed_result,
          answer_filter db q = inr seed_result /\
          ((map node_id seed_result = [] /\ snap = empty_snapshot) \/
           exists paths edges_indices edges_attributes,
             answer_expand db depth (map node_id seed_result) = inr paths /\
             classify relationships (snd (collect paths)) =
               inr (edges_indices, edges_attributes) /\
             snap = (fst (fst (collect paths)), snd (fst (collect paths)),
                     edges_indices, edges_attributes))).
Proof.
  intros Hq. repeat split.
  - intros Hseed. rewrite retrieve_subgraph_run, Hseed. reflexivity.
  - intros seed_result Hseed Hne Hexp. rewrite retrieve_subgraph_run, Hseed.
    destruct (map node_id seed_result) as [| i ids] eqn:Hids; [congruence |].
    cbv zeta. rewrite Hexp. unfold ev_filter, ev_expand.
    now rewrite <- !app_assoc.
  - intros lab Hnodes. rewrite get_nodes_run, Hnodes, Hq.
    now rewrite <- app_assoc.
  - intros tr' snap. rewrite retrieve_subgraph_run.
    destruct (answer_filter db q) as [e' | seed_result]; [discriminate |].
    intros Hrun. exists seed_result. split; [reflexivity |].
    destruct (map node_id seed_result) as [| i ids].
    + left. split; [reflexivity |]. congruence.
    + right. cbv zeta in Hrun.
      destruct (answer_expand db depth (i :: ids)) as [e' | paths] eqn:Hexp;
        [discriminate |].
      destruct (classify relationships (snd (collect paths)))
        as [e' | [ei ea]] eqn:Hcls; [discriminate |].
      exists paths, ei, ea. split; [reflexivity | split; [exact Hcls |]].
      congruence.
Qed.

Lemma store_failure_aborts_extraction_witness :
  is_query_error (Neo4jError "connection reset") = true
  /\ retrieve_subgraph (broken_store (Neo4jError "connection reset"))
       owns_schema seed_query 2 [] =
     ([EvRun (QFilter seed_query)], inl (Neo4jError "connection reset"))
  /\ retrieve_subgraph (half_broken_store [alice] (Neo4jError "connection reset"))
       owns_schema seed_query 2 [] =
     ([EvRun (QFilter seed_query); ev_starting; EvRun (QExpand 2 [1%Z])],
      inl (Neo4jError "connection reset"))
  /\ get_nodes (broken_store (Neo4jError "connection reset")) "User" [] =
     ([EvRun (QNodes "User");
       EvLogError (QNodes "User") (Neo4jError "connection reset")],
      inl (Neo4jError "connection reset")).
Proof.
  split; [reflexivity |].
  split; [| split].
  - apply (store_failure_aborts_extraction
             (broken_store (Neo4jError "connection reset")) owns_schema
             seed_query 2 [] (Neo4jError "connection reset")); reflexivity.
  - apply (proj1 (proj2 (store_failure_aborts_extraction
             (half_broken_store [alice] (Neo4jError "connection reset"))
             owns_schema seed_query 2 [] (Neo4jError "connection reset")
             eq_refl)) [alice]).
    + reflexivity.
    + discriminate.
    + reflexivity.
  - apply (proj1 (proj2 (proj2 (store_failure_aborts_extraction
             (broken_store (Neo4jError "connection reset")) owns_schema
             seed_query 2 [] (Neo4jError "connection reset") eq_refl)))).
    reflexivity.
Defined.

(** C10: when the store answers every query [retrieve_edges] sends, the
    two mappings it returns have exactly the keys of the relationship
    dictionary, in its order, and under each relationship type exactly the
    sub-type keys declared for it, whatever rows came back (also none);
    each entry holds the array and the attribute list of its own query. *)
Theorem retrieve_edges_mirrors_declaration (db : store)
    (relationship_dict : relationships_t)
    (rows : label -> string -> label -> list edge_row) (tr : trace) :
  NoDup (Dict.keys relationship_dict) ->
  (forall key subdict, In (key, subdict) relationship_dict ->
     NoDup (Dict.keys subdict)) ->
  (forall key subdict type val,
     In (key, subdict) relationship_dict -> In (type, val) subdict ->
     answer_edges db (source val) key (target val) =
     inr (rows (source val) key (target val))) ->
  exists tr' edges_index edges_attributes,
    retrieve_edges db relationship_dict tr =
      (tr', inr (edges_index, edges_attributes)) /\
    Dict.keys edges_index = Dict.keys relationship_dict /\
    Dict.keys edges_attributes = Dict.keys relationship_dict /\
    forall key subdict,
      Dict.get relationship_dict key = Some subdict ->
      exists inner_index inner_attributes,
        Dict.get edges_index key = Some inner_index /\
        Dict.get edges_attributes key = Some inner_attributes /\
        Dict.keys inner_index = Dict.keys subdict /\
        Dict.keys inner_attributes = Dict.keys subdict /\
        forall type val,
          Dict.get subdict type = Some val ->
          Dict.get inner_index type =
            Some (edge_index_of (rows (source val) key (target val))) /\
          Dict.get inner_attributes type =
            Some (edge_attrs_of (rows (source val) key (target val))).
Proof.
  intros Hnd Hsub Hok.
  destruct (retrieve_edges_run db rows relationship_dict tr Hnd Hsub Hok)
    as (tr' & Hrun).
  exists tr', (map (index_group rows) relationship_dict),
    (map (attrs_group rows) relationship_dict).
  split; [exact Hrun |].
  split; [exact (keys_map_entries
                   (fun key subdict => map (index_entry rows key) subdict)
                   relationship_dict) |].
  split; [exact (keys_map_entries
                   (fun key subdict => map (attrs_entry rows key) subdict)
                   relationship_dict) |].
  intros key subdict Hget.
  exists (map (index_entry rows key) subdict), (map (attrs_entry rows key) subdict).
  split; [exact (get_map_entries_Some
                   (fun key subdict => map (index_entry rows key) subdict)
                   relationship_dict key subdict Hget) |].
  split; [exact (get_map_entries_Some
                   (fun key subdict => map (attrs_entry rows key) subdict)
                   relationship_dict key subdict Hget) |].
  split; [apply keys_index_entries |].
  split; [apply keys_attrs_entries |].
  intros type val Hval. split.
  - exact (get_map_entries_Some
             (fun (_ : string) val =>
                edge_index_of (rows (source val) key (target val)))
             subdict type val Hval).
  - exact (get_map_entries_Some
             (fun (_ : string) val =>
                edge_attrs_of (rows (source val) key (target val)))
             subdict type val Hval).
Qed.

Lemma retrieve_edges_mirrors_declaration_witness :
  NoDup (Dict.keys owns_schema)
  /\ exists tr' edges_index edges_attributes,
       retrieve_edges (graph_store [] []) owns_schema [] =
         (tr', inr (edges_index, edges_attributes)) /\
       Dict.keys edges_index = Dict.keys owns_schema /\
       Dict.keys edges_attributes = Dict.keys owns_schema /\
       forall key subdict,
         Dict.get owns_schema key = Some subdict ->
         exists inner_index inner_attributes,
           Dict.get edges_index key = Some inner_index /\
           Dict.get edges_attributes key = Some inner_attributes /\
           Dict.keys inner_index = Dict.keys subdict /\
           Dict.keys inner_attributes = Dict.keys subdict /\
           forall type val,
             Dict.get subdict type = Some val ->
             Dict.get inner_index type = Some (edge_index_of []) /\
             Dict.get inner_attributes type = Some (edge_attrs_of []).
Proof.
  assert (Hnd : NoDup (Dict.keys owns_schema)).
  { simpl. constructor; [simpl; tauto | constructor]. }
  split; [exact Hnd |].
  apply (retrieve_edges_mirrors_declaration (graph_store [] []) owns_schema
           (fun _ _ _ => []) [] Hnd).
  - intros key subdict [[= <- <-] | []]. simpl.
    constructor; [simpl; intros [Heq | []]; discriminate |].
    constructor; [simpl; tauto | constructor].
  - intros key subdict type val _ _. reflexivity.
Defined.

(** * Further properties of the code *)

(** ** Node buckets and their property lists *)

Lemma add_new_node_idem (pairs : list (Z * props)) (n : node) :
  add_new_node (add_new_node pairs n) n = add_new_node pairs n.
Proof.
  unfold add_new_node at 2 3.
  destruct (mem (node_id n) (map fst pairs)) eqn:Hmem.
  - unfold add_new_node. now rewrite Hmem.
  - unfold add_new_node.
    replace (mem (node_id n) (map fst (pairs ++ [(node_id n, node_props n)])))
      with true; [reflexivity |].
    symmetry. apply mem_true_iff. rewrite map_app, in_app_iff. right. now left.
Qed.

Lemma map_fst_add_new_node (pairs : list (Z * props)) (n : node) :
  map fst (add_new_node pairs n) = add_new (map fst pairs) (node_id n).
Proof.
  unfold add_new_node, add_new.
  destruct (mem (node_id n) (map fst pairs)); [reflexivity |].
  now rewrite map_app.
Qed.

Lemma map_fst_first_seen_nodes (l : list node) (pairs : list (Z * props)) :
  map fst (fold_left add_new_node l pairs) =
  fold_left add_new (map node_id l) (map fst pairs).
Proof.
  revert pairs. induction l as [| n l IH]; intros pairs; simpl; [reflexivity |].
  now rewrite IH, map_fst_add_new_node.
Qed.

Lemma keys_set_congr {K V W : Type} `{EqDec K} (d : Dict.t K V) (d' : Dict.t K W)
    (k : K) (v : V) (w : W) :
  Dict.keys d = Dict.keys d' ->
  Dict.keys (Dict.set d k v) = Dict.keys (Dict.set d' k w).
Proof.
  revert d'. induction d as [| [k1 v1] d IH]; intros [| [k2 w2] d'] Hkeys;
    simpl in *; try discriminate; [reflexivity |].
  injection Hkeys as -> Hkeys.
  destruct (eq_dec k k2); simpl; [now f_equal |].
  f_equal. now apply IH.
Qed.

Lemma contains_congr {K V W : Type} `{EqDec K} (d : Dict.t K V) (d' : Dict.t K W)
    (k : K) :
  Dict.keys d = Dict.keys d' -> Dict.contains d k = Dict.contains d' k.
Proof.
  intros Hkeys.
  destruct (Dict.contains d k) eqn:Hc; symmetry.
  - apply DictFacts.contains_true_iff. rewrite <- Hkeys.
    now apply DictFacts.contains_true_iff.
  - destruct (Dict.contains d' k) eqn:Hc'; [| reflexivity].
    apply DictFacts.contains_true_iff in Hc'. rewrite <- Hkeys in Hc'.
    apply DictFacts.contains_true_iff in Hc'. congruence.
Qed.

Lemma visit_label_keys (n : node) (acc : nodes_ids_t * nodes_features_t)
    (lab : label) :
  Dict.keys (fst acc) = Dict.keys (snd acc) ->
  Dict.keys (fst (visit_label n acc lab)) = Dict.keys (snd (visit_label n acc lab)).
Proof.
  destruct acc as [ids feats]. unfold visit_label. cbn [fst snd]. intros Hkeys.
  destruct (Dict.contains ids lab);
    (match goal with
     | |- context [mem ?x ?l] => destruct (mem x l)
     end; cbn [fst snd];
     [| apply keys_set_congr]; try apply keys_set_congr; exact Hkeys).
Qed.

Lemma visit_label_bucket (n : node) (acc : nodes_ids_t * nodes_features_t)
    (lab' lab : label) (pairs : list (Z * props)) :
  bucket_is acc lab pairs ->
  bucket_is (visit_label n acc lab') lab
    (if string_dec lab' lab then add_new_node pairs n else pairs).
Proof.
  destruct acc as [ids feats]. unfold bucket_is, visit_label. cbn [fst snd].
  intros [Hids Hfeats].
  set (ids' := if Dict.contains ids lab' then ids else Dict.set ids lab' []).
  set (feats' := if Dict.contains ids lab' then feats else Dict.set feats lab' []).
  assert (Hpair : (if Dict.contains ids lab' then (ids, feats)
                   else (Dict.set ids lab' [], Dict.set feats lab' [])) =
                  (ids', feats')).
  { subst ids' feats'. destruct (Dict.contains ids lab'); reflexivity. }
  rewrite Hpair. clear Hpair.
  assert (Hids' : Dict.getd ids' lab [] = map fst pairs).
  { subst ids'. unfold Dict.contains.
    destruct (Dict.get ids lab') eqn:Hg; [exact Hids |].
    destruct (string_dec lab' lab) as [<- | Hne].
    - rewrite DictFacts.getd_set_eq. rewrite <- Hids. unfold Dict.getd.
      now rewrite Hg.
    - now rewrite DictFacts.getd_set_neq. }
  assert (Hfeats' : Dict.getd feats' lab [] = map snd pairs).
  { subst feats'. unfold Dict.contains.
    destruct (Dict.get ids lab') eqn:Hg; [exact Hfeats |].
    destruct (string_dec lab' lab) as [<- | Hne].
    - rewrite DictFacts.getd_set_eq.
      assert (Hnil : map fst pairs = []).
      { rewrite <- Hids. unfold Dict.getd. now rewrite Hg. }
      destruct pairs; [reflexivity | discriminate].
    - now rewrite DictFacts.getd_set_neq. }
  clearbody ids' feats'.
  destruct (string_dec lab' lab) as [<- | Hne].
  - unfold add_new_node. rewrite Hids'.
    destruct (mem (node_id n) (map fst pairs)); cbn [fst snd].
    + now split.
    + rewrite !DictFacts.getd_set_eq, Hfeats', !map_app. now split.
  - destruct (mem (node_id n) (Dict.getd ids' lab' [])); cbn [fst snd].
    + now split.
    + rewrite !DictFacts.getd_set_neq by exact Hne. now split.
Qed.

Lemma visit_node_bucket (acc : nodes_ids_t * nodes_features_t) (n : node)
    (lab : label) (pairs : list (Z * props)) :
  bucket_is acc lab pairs ->
  bucket_is (visit_node acc n) lab
    (if has_label lab n then add_new_node pairs n else pairs).
Proof.
  unfold visit_node, has_label. revert acc pairs.
  induction (node_labels n) as [| lab' labs IH]; intros acc pairs Hb.
  - exact Hb.
  - cbn [fold_left mem].
    pose proof (IH _ _ (visit_label_bucket n acc lab' lab pairs Hb)) as Hstep.
    unfold eq_dec, string_EqDec.
    destruct (string_dec lab' lab) as [<- | Hne].
    + destruct (string_dec lab' lab'); [| congruence].
      destruct (mem lab' labs); [| exact Hstep].
      now rewrite add_new_node_idem in Hstep.
    + destruct (string_dec lab lab'); [congruence |]. exact Hstep.
Qed.

Lemma fold_visit_node_bucket (nodes : list node)
    (acc : nodes_ids_t * nodes_features_t) (lab : label)
    (pairs : list (Z * props)) :
  bucket_is acc lab pairs ->
  bucket_is (fold_left visit_node nodes acc) lab
    (fold_left add_new_node (filter (has_label lab) nodes) pairs).
Proof.
  revert acc pairs. induction nodes as [| n nodes IH]; intros acc pairs Hb.
  - exact Hb.
  - cbn [fold_left filter].
    pose proof (IH _ _ (visit_node_bucket acc n lab pairs Hb)) as Hstep.
    destruct (has_label lab n); exact Hstep.
Qed.

Lemma collect_bucket (paths : list path) (lab : label) :
  bucket_is (fst (collect paths)) lab
    (first_seen_nodes (filter (has_label lab) (visited paths))).
Proof.
  unfold collect, first_seen_nodes.
  enough (Hgen : forall st pairs,
             bucket_is (fst st) lab pairs ->
             bucket_is (fst (fold_left visit_path paths st)) lab
               (fold_left add_new_node (filter (has_label lab) (visited paths))
                  pairs)).
  { apply Hgen. split; reflexivity. }
  induction paths as [| p paths IH]; intros st pairs Hb.
  - exact Hb.
  - cbn [fold_left]. unfold visited. cbn [flat_map].
    rewrite filter_app, fold_left_app. apply IH.
    rewrite visit_path_nodes. now apply fold_visit_node_bucket.
Qed.

Lemma collect_node_keys (paths : list path) :
  Dict.keys (fst (fst (collect paths))) = Dict.keys (snd (fst (collect paths))).
Proof.
  unfold collect.
  apply (fold_left_invariant
           (fun st : nodes_ids_t * nodes_features_t * tmp_edges_t =>
              Dict.keys (fst (fst st)) = Dict.keys (snd (fst st)))).
  - intros st p _ Hkeys. rewrite visit_path_nodes.
    apply (fold_left_invariant
             (fun acc : nodes_ids_t * nodes_features_t =>
                Dict.keys (fst acc) = Dict.keys (snd acc))); [| exact Hkeys].
    intros acc n _ Hk. unfold visit_node.
    apply (fold_left_invariant
             (fun acc : nodes_ids_t * nodes_features_t =>
                Dict.keys (fst acc) = Dict.keys (snd acc))); [| exact Hk].
    intros acc' lab _. apply visit_label_keys.
  - reflexivity.
Qed.

Lemma In_fold_add_new (l acc : list Z) (x : Z) :
  In x (fold_left add_new l acc) <-> In x acc \/ In x l.
Proof.
  revert acc. induction l as [| y l IH]; intros acc; simpl; [tauto |].
  rewrite IH. unfold add_new.
  destruct (mem y acc) eqn:Hmem.
  - apply mem_true_iff in Hmem. split; [tauto |].
    intros [Hin | [<- | Hin]]; tauto.
  - rewrite in_app_iff. simpl. tauto.
Qed.

Lemma In_fold_add_new_node (l : list node) (acc : list (Z * props))
    (i : Z) (f : props) :
  In (i, f) (fold_left add_new_node l acc) <->
  In (i, f) acc \/
  (~ In i (map fst acc) /\
   exists n, find (fun n => Z.eqb (node_id n) i) l = Some n /\ f = node_props n).
Proof.
  revert acc. induction l as [| n l IH]; intros acc.
  - simpl. split; [now left | intros [Hin | (_ & n & Hn & _)]; [exact Hin | discriminate]].
  - cbn [fold_left find]. rewrite IH. clear IH. unfold add_new_node.
    destruct (mem (node_id n) (map fst acc)) eqn:Hmem.
    + apply mem_true_iff in Hmem.
      destruct (Z.eqb_spec (node_id n) i) as [Heq | Hne]; [| reflexivity].
      subst i. split; intros [Hin | (Hn & _)]; tauto.
    + assert (Hnotin : ~ In (node_id n) (map fst acc)).
      { rewrite <- mem_true_iff. congruence. }
      rewrite map_app, !in_app_iff. cbn [map fst In].
      destruct (Z.eqb_spec (node_id n) i) as [Heq | Hne].
      * subst i. split.
        -- intros [[Hin | [Heq | []]] | (Hn & _)].
           ++ now left.
           ++ right. split; [exact Hnotin |]. exists n. split; [reflexivity |].
              congruence.
           ++ exfalso. apply Hn. right. now left.
        -- intros [Hin | (_ & n' & Hn' & ->)].
           ++ left. now left.
           ++ injection Hn' as <-. left. right. now left.
      * split.
        -- intros [[Hin | [Heq | []]] | (Hn & Hex)].
           ++ now left.
           ++ congruence.
           ++ right. split; [tauto | exact Hex].
        -- intros [Hin | (Hn & Hex)].
           ++ left. now left.
           ++ right. split; [| exact Hex]. intros [Hin | [Heq | []]]; tauto.
Qed.

Lemma find_filter {A : Type} (p q : A -> bool) (l : list A) :
  find q (filter p l) = find (fun a => p a && q a) l.
Proof.
  induction l as [| a l IH]; simpl; [reflexivity |].
  destruct (p a); simpl; [| exact IH].
  destruct (q a); [reflexivity | exact IH].
Qed.

Lemma has_label_iff (lab : label) (n : node) :
  has_label lab n = true <-> In lab (node_labels n).
Proof. apply mem_true_iff. Qed.

Lemma visit_label_nonempty (n : node) (acc : nodes_ids_t * nodes_features_t)
    (lab : label) :
  buckets_nonempty (fst acc) -> buckets_nonempty (fst (visit_label n acc lab)).
Proof.
  destruct acc as [ids feats]. unfold visit_label, buckets_nonempty.
  cbn [fst]. intros Hinv lab'.
  destruct (Dict.contains ids lab).
  - destruct (mem (node_id n) (Dict.getd ids lab [])); cbn [fst]; [apply Hinv |].
    destruct (string_dec lab lab') as [<- | Hne].
    + rewrite DictFacts.get_set_eq. intros [= Heq].
      symmetry in Heq. now apply app_cons_not_nil in Heq.
    + rewrite DictFacts.get_set_neq by exact Hne. apply Hinv.
  - rewrite DictFacts.getd_set_eq. cbn [mem fst app].
    destruct (string_dec lab lab') as [<- | Hne].
    + rewrite DictFacts.get_set_eq. discriminate.
    + rewrite !DictFacts.get_set_neq by exact Hne. apply Hinv.
Qed.

Lemma collect_nonempty (paths : list path) :
  buckets_nonempty (fst (fst (collect paths))).
Proof.
  unfold collect.
  apply (fold_left_invariant
           (fun st : nodes_ids_t * nodes_features_t * tmp_edges_t =>
              buckets_nonempty (fst (fst st)))).
  - intros st p _ Hinv. rewrite visit_path_nodes.
    apply (fold_left_invariant
             (fun acc : nodes_ids_t * nodes_features_t =>
                buckets_nonempty (fst acc))); [| exact Hinv].
    intros acc n _ Hacc. unfold visit_node.
    apply (fold_left_invariant
             (fun acc : nodes_ids_t * nodes_features_t =>
                buckets_nonempty (fst acc))); [| exact Hacc].
    intros acc' lab _. apply visit_label_nonempty.
  - intros lab. discriminate.
Qed.

(** What a successful call with seeds returns, in terms of the paths. *)
Lemma retrieve_subgraph_collect (db : store) (relationships : relationships_t)
    (q : string) (depth : Z) (tr tr' : trace) (seed_result : list node)
    (paths : list path)
    (nodes_ids : nodes_ids_t) (nodes_features : nodes_features_t)
    (edges_indices : edges_index_t) (edges_attributes : edges_attributes_t) :
  answer_filter db q = inr seed_result ->
  map node_id seed_result <> [] ->
  answer_expand db depth (map node_id seed_result) = inr paths ->
  retrieve_subgraph db relationships q depth tr =
    (tr', inr (nodes_ids, nodes_features, edges_indices, edges_attributes)) ->
  nodes_ids = fst (fst (collect paths)) /\
  nodes_features = snd (fst (collect paths)) /\
  classify relationships (snd (collect paths)) =
    inr (edges_indices, edges_attributes).
Proof.
  intros Hseed Hne Hexp. rewrite retrieve_subgraph_run, Hseed.
  destruct (map node_id seed_result) as [| i ids]; [congruence |].
  cbv zeta. rewrite Hexp.
  destruct (classify relationships (snd (collect paths))) as [e | [ei ea]];
    [discriminate |].
  intros Hrun. repeat split; congruence.
Qed.

(** A bucket of node identities holds exactly the identities of the
    traversed nodes that carry its label, and a label has a bucket exactly
    when some traversed node carries it. *)
Theorem node_bucket_membership (db : store) (relationships : relationships_t)
    (q : string) (depth : Z) (tr tr' : trace) (seed_result : list node)
    (paths : list path)
    (nodes_ids : nodes_ids_t) (nodes_features : nodes_features_t)
    (edges_indices : edges_index_t) (edges_attributes : edges_attributes_t)
    (lab : label) (i : Z) :
  answer_filter db q = inr seed_result ->
  map node_id seed_result <> [] ->
  answer_expand db depth (map node_id seed_result) = inr paths ->
  retrieve_subgraph db relationships q depth tr =
    (tr', inr (nodes_ids, nodes_features, edges_indices, edges_attributes)) ->
  (In i (Dict.getd nodes_ids lab []) <->
   exists n, In n (visited paths) /\ node_id n = i /\ In lab (node_labels n))
  /\ (In lab (Dict.keys nodes_ids) <->
      exists n, In n (visited paths) /\ In lab (node_labels n)).
Proof.
  intros Hseed Hne Hexp Hrun.
  destruct (retrieve_subgraph_collect _ _ _ _ _ _ _ _ _ _ _ _ Hseed Hne Hexp Hrun)
    as (-> & _ & _).
  destruct (collect_bucket paths lab) as [Hids _].
  assert (Hmem : forall j,
             In j (Dict.getd (fst (fst (collect paths))) lab []) <->
             exists n, In n (visited paths) /\ node_id n = j /\
                       In lab (node_labels n)).
  { intros j. rewrite Hids. unfold first_seen_nodes.
    rewrite (map_fst_first_seen_nodes _ []), In_fold_add_new.
    cbn [map In]. rewrite in_map_iff. split.
    - intros [[] | (n & Hid & Hin)]. apply filter_In in Hin.
      destruct Hin as [Hin Hlab]. exists n.
      rewrite has_label_iff in Hlab. tauto.
    - intros (n & Hin & Hid & Hlab). right. exists n. split; [exact Hid |].
      apply filter_In. rewrite has_label_iff. tauto. }
  split; [apply Hmem |].
  split.
  - intros Hkey.
    destruct (Dict.get (fst (fst (collect paths))) lab) as [bucket |] eqn:Hget.
    + destruct bucket as [| j bucket].
      * exfalso. exact (collect_nonempty paths lab Hget).
      * destruct (proj1 (Hmem j)) as (n & Hin & _ & Hlab).
        { unfold Dict.getd. rewrite Hget. now left. }
        now exists n.
    + apply DictFacts.get_None_iff in Hget. contradiction.
  - intros (n & Hin & Hlab).
    assert (Hj : In (node_id n) (Dict.getd (fst (fst (collect paths))) lab [])).
    { apply Hmem. now exists n. }
    unfold Dict.getd in Hj.
    destruct (Dict.get (fst (fst (collect paths))) lab) eqn:Hget; [| destruct Hj].
    eapply DictFacts.get_Some_key; eauto.
Qed.

Lemma node_bucket_membership_witness :
  answer_filter sample_store seed_query = inr [alice; root]
  /\ retrieve_subgraph sample_store owns_schema seed_query 2 [] =
     (sample_trace,
      inr (sample_nodes_ids, sample_nodes_features, sample_edges_indices,
           sample_edges_attributes))
  /\ (In 3%Z (Dict.getd sample_nodes_ids "Admin" []) <->
      exists n, In n (visited sample_paths) /\ node_id n = 3%Z /\
                In "Admin" (node_labels n))
  /\ (In "Admin" (Dict.keys sample_nodes_ids) <->
      exists n, In n (visited sample_paths) /\ In "Admin" (node_labels n)).
Proof.
  split; [reflexivity |].
  split; [reflexivity |].
  apply (node_bucket_membership sample_store owns_schema seed_query 2 []
           sample_trace [alice; root] sample_paths sample_nodes_ids
           sample_nodes_features sample_edges_indices sample_edges_attributes
           "Admin" 3%Z).
  - reflexivity.
  - discriminate.
  - reflexivity.
  - reflexivity.
Defined.

(** Within a bucket the identities stand in the order in which the
    traversal first met a node carrying the label. *)
Theorem node_bucket_order (db : store) (relationships : relationships_t)
    (q : string) (depth : Z) (tr tr' : trace) (seed_result : list node)
    (paths : list path)
    (nodes_ids : nodes_ids_t) (nodes_features : nodes_features_t)
    (edges_indices : edges_index_t) (edges_attributes : edges_attributes_t)
    (lab : label) :
  answer_filter db q = inr seed_result ->
  map node_id seed_result <> [] ->
  answer_expand db depth (map node_id seed_result) = inr paths ->
  retrieve_subgraph db relationships q depth tr =
    (tr', inr (nodes_ids, nodes_features, edges_indices, edges_attributes)) ->
  Dict.getd nodes_ids lab [] =
  first_seen (map node_id (filter (has_label lab) (visited paths))).
Proof.
  intros Hseed Hne Hexp Hrun.
  destruct (retrieve_subgraph_collect _ _ _ _ _ _ _ _ _ _ _ _ Hseed Hne Hexp Hrun)
    as (-> & _ & _).
  destruct (collect_bucket paths lab) as [Hids _].
  rewrite Hids. unfold first_seen_nodes, first_seen.
  now rewrite (map_fst_first_seen_nodes _ []).
Qed.

Lemma node_bucket_order_witness :
  Dict.getd sample_nodes_ids "User" [] =
  first_seen (map node_id (filter (has_label "User") (visited sample_paths))).
Proof.
  apply (node_bucket_order sample_store owns_schema seed_query 2 []
           sample_trace [alice; root] sample_paths sample_nodes_ids
           sample_nodes_features sample_edges_indices sample_edges_attributes
           "User").
  - reflexivity.
  - discriminate.
  - reflexivity.
  - reflexivity.
Defined.

(** The node-feature mapping runs parallel to the node-id mapping: same
    labels in the same order, buckets of equal length, and at each position
    the property dictionary of the first traversed node that carries the
    label and has the identity stored at that position. *)
Theorem node_features_aligned (db : store) (relationships : relationships_t)
    (q : string) (depth : Z) (tr tr' : trace) (seed_result : list node)
    (paths : list path)
    (nodes_ids : nodes_ids_t) (nodes_features : nodes_features_t)
    (edges_indices : edges_index_t) (edges_attributes : edges_attributes_t)
    (lab : label) :
  answer_filter db q = inr seed_result ->
  map node_id seed_result <> [] ->
  answer_expand db depth (map node_id seed_result) = inr paths ->
  retrieve_subgraph db relationships q depth tr =
    (tr', inr (nodes_ids, nodes_features, edges_indices, edges_attributes)) ->
  Dict.keys nodes_ids = Dict.keys nodes_features
  /\ length (Dict.getd nodes_ids lab []) = length (Dict.getd nodes_features lab [])
  /\ forall k i f,
       nth_error (Dict.getd nodes_ids lab []) k = Some i ->
       nth_error (Dict.getd nodes_features lab []) k = Some f ->
       exists n,
         find (fun n => has_label lab n && Z.eqb (node_id n) i) (visited paths)
           = Some n
         /\ f = node_props n.
Proof.
  intros Hseed Hne Hexp Hrun.
  destruct (retrieve_subgraph_collect _ _ _ _ _ _ _ _ _ _ _ _ Hseed Hne Hexp Hrun)
    as (-> & -> & _).
  split; [apply collect_node_keys |].
  destruct (collect_bucket paths lab) as [Hids Hfeats].
  cbn [fst snd] in Hids, Hfeats. rewrite Hids, Hfeats.
  split; [now rewrite !length_map |].
  intros k i f Hi Hf. rewrite nth_error_map in Hi, Hf.
  destruct (nth_error (first_seen_nodes (filter (has_label lab) (visited paths))) k)
    as [[i' f'] |] eqn:Hk; [| discriminate].
  cbn in Hi, Hf. injection Hi as ->. injection Hf as ->.
  apply nth_error_In in Hk. unfold first_seen_nodes in Hk.
  apply In_fold_add_new_node in Hk.
  destruct Hk as [[] | (_ & n & Hfind & ->)].
  exists n. split; [| reflexivity]. now rewrite <- find_filter.
Qed.

Lemma node_features_aligned_witness :
  Dict.keys sample_nodes_ids = Dict.keys sample_nodes_features
  /\ length (Dict.getd sample_nodes_ids "User" []) =
     length (Dict.getd sample_nodes_features "User" [])
  /\ forall k i f,
       nth_error (Dict.getd sample_nodes_ids "User" []) k = Some i ->
       nth_error (Dict.getd sample_nodes_features "User" []) k = Some f ->
       exists n,
         find (fun n => has_label "User" n && Z.eqb (node_id n) i)
           (visited sample_paths) = Some n
         /\ f = node_props n.
Proof.
  apply (node_features_aligned sample_store owns_schema seed_query 2 []
           sample_trace [alice; root] sample_paths sample_nodes_ids
           sample_nodes_features sample_edges_indices sample_edges_attributes
           "User").
  - reflexivity.
  - discriminate.
  - reflexivity.
  - reflexivity.
Defined.

(** ** Which calls succeed, and which exception the others raise *)

Lemma keys_visit_relationship (tmp_edges : tmp_edges_t) (r : relationship) :
  Dict.keys (visit_relationship tmp_edges r) =
  if Dict.contains tmp_edges (rel_type r) then Dict.keys tmp_edges
  else Dict.keys tmp_edges ++ [rel_type r].
Proof.
  unfold visit_relationship.
  destruct (Dict.contains tmp_edges (rel_type r)) eqn:Hc.
  - apply DictFacts.keys_set_in. now apply DictFacts.contains_true_iff.
  - assert (Hnotin : ~ In (rel_type r) (Dict.keys tmp_edges)).
    { rewrite <- DictFacts.contains_true_iff. congruence. }
    rewrite (DictFacts.set_notin tmp_edges) by exact Hnotin.
    rewrite DictFacts.set_last by exact Hnotin.
    rewrite keys_app. reflexivity.
Qed.

Lemma find_app {A : Type} (p : A -> bool) (l l' : list A) :
  find p (l ++ l') =
  match find p l with Some a => Some a | None => find p l' end.
Proof.
  induction l as [| a l IH]; simpl; [reflexivity |].
  destruct (p a); [reflexivity | exact IH].
Qed.

Lemma find_none_in {A : Type} (p : A -> bool) (l : list A) (a : A) :
  find p l = None -> In a l -> p a = false.
Proof. intros Hfind Hin. exact (find_none p l Hfind a Hin). Qed.

Lemma find_keys_fold_visit_relationship (p : string -> bool)
    (rs : list relationship) (tmp_edges : tmp_edges_t) :
  find p (Dict.keys (fold_left visit_relationship rs tmp_edges)) =
  match find p (Dict.keys tmp_edges) with
  | Some k => Some k
  | None => find p (map rel_type rs)
  end.
Proof.
  revert tmp_edges. induction rs as [| r rs IH]; intros tmp_edges.
  - simpl. destruct (find p (Dict.keys tmp_edges)); reflexivity.
  - cbn [fold_left map find]. rewrite IH, keys_visit_relationship.
    destruct (Dict.contains tmp_edges (rel_type r)) eqn:Hc.
    + destruct (find p (Dict.keys tmp_edges)) eqn:Hfind; [reflexivity |].
      apply DictFacts.contains_true_iff in Hc.
      now rewrite (find_none_in p _ _ Hfind Hc).
    + rewrite find_app. cbn [find].
      destruct (find p (Dict.keys tmp_edges)); [reflexivity |].
      destruct (p (rel_type r)); reflexivity.
Qed.

Lemma find_keys_collect (p : string -> bool) (paths : list path) :
  find p (Dict.keys (snd (collect paths))) =
  find p (map rel_type (traversed paths)).
Proof.
  unfold collect.
  enough (Hgen : forall st,
             find p (Dict.keys (snd (fold_left visit_path paths st))) =
             match find p (Dict.keys (snd st)) with
             | Some k => Some k
             | None => find p (map rel_type (traversed paths))
             end).
  { rewrite Hgen. reflexivity. }
  induction paths as [| pa paths IH]; intros st.
  - simpl. destruct (find p (Dict.keys (snd st))); reflexivity.
  - cbn [fold_left]. rewrite IH, visit_path_edges,
      find_keys_fold_visit_relationship.
    unfold traversed. cbn [flat_map]. rewrite map_app, find_app.
    destruct (find p (Dict.keys (snd st))); [reflexivity |].
    destruct (find p (map rel_type (path_relationships pa))); reflexivity.
Qed.

Lemma find_map {A B : Type} (p : B -> bool) (f : A -> B) (l : list A) :
  find p (map f l) = option_map f (find (fun a => p (f a)) l).
Proof.
  induction l as [| a l IH]; simpl; [reflexivity |].
  destruct (p (f a)); [reflexivity | exact IH].
Qed.

Lemma for_each_classify_first (relationships : relationships_t)
    (tmp_edges : tmp_edges_t) (acc : edges_index_t * edges_attributes_t)
    (t : string) :
  find (undeclared relationships) (Dict.keys tmp_edges) = Some t ->
  for_each_r (classify_reltype relationships) tmp_edges acc = inl (KeyError t).
Proof.
  revert acc. induction tmp_edges as [| [k triples] tmp_edges IH]; intros acc.
  - discriminate.
  - cbn [Dict.keys map fst find for_each_r]. rewrite classify_reltype_unfold.
    unfold undeclared at 1, Dict.contains.
    destruct (Dict.get relationships k) as [rel_def |]; cbn [negb].
    + apply IH.
    + now intros [= ->].
Qed.

(** With seeds and a traversal result in hand, [retrieve_subgraph] returns a
    snapshot exactly when every traversed relationship has its type declared;
    otherwise it raises [KeyError] for the type of the first traversed
    relationship that has none. *)
Theorem retrieve_subgraph_outcome (db : store) (relationships : relationships_t)
    (q : string) (depth : Z) (tr : trace) (seed_result : list node)
    (paths : list path) :
  answer_filter db q = inr seed_result ->
  map node_id seed_result <> [] ->
  answer_expand db depth (map node_id seed_result) = inr paths ->
  match find (fun r => undeclared relationships (rel_type r)) (traversed paths) with
  | Some r =>
      snd (retrieve_subgraph db relationships q depth tr) =
      inl (KeyError (rel_type r))
  | None =>
      exists snap,
        snd (retrieve_subgraph db relationships q depth tr) = inr snap
  end.
Proof.
  intros Hseed Hne Hexp. rewrite retrieve_subgraph_run, Hseed.
  destruct (map node_id seed_result) as [| i ids]; [congruence |].
  cbv zeta. rewrite Hexp.
  pose proof (find_keys_collect (undeclared relationships) paths) as Hfind.
  rewrite find_map in Hfind.
  destruct (find (fun r => undeclared relationships (rel_type r)) (traversed paths))
    as [r |] eqn:Hr; cbn [option_map] in Hfind.
  - unfold classify, Dict.items.
    now rewrite (for_each_classify_first relationships _ _ _ Hfind).
  - destruct (for_each_classify_known relationships (snd (collect paths))
                (Dict.empty, Dict.empty)) as ([ei ea] & Hout).
    { intros k Hin Hnone.
      pose proof (find_none_in _ _ k Hfind Hin) as Hk.
      unfold undeclared, Dict.contains in Hk. now rewrite Hnone in Hk. }
    unfold classify, Dict.items. rewrite Hout. eexists. reflexivity.
Qed.

Lemma retrieve_subgraph_outcome_witness :
  snd (retrieve_subgraph (graph_store [alice] [one_hop; fork_hop; round_trip])
         owns_schema seed_query 2 []) = inl (KeyError "forked_from")
  /\ exists snap,
       snd (retrieve_subgraph sample_store owns_schema seed_query 2 []) = inr snap.
Proof.
  split.
  - apply (retrieve_subgraph_outcome
             (graph_store [alice] [one_hop; fork_hop; round_trip]) owns_schema
             seed_query 2 [] [alice] [one_hop; fork_hop; round_trip]).
    + reflexivity.
    + discriminate.
    + reflexivity.
  - apply (retrieve_subgraph_outcome sample_store owns_schema seed_query 2 []
             [alice; root] sample_paths).
    + reflexivity.
    + discriminate.
    + reflexivity.
Defined.

(** ** The relationship types that key the edge mappings *)

Lemma for_each_classify_keys (relationships : relationships_t)
    (tmp_edges : tmp_edges_t) (acc out : edges_index_t * edges_attributes_t) :
  for_each_r (classify_reltype relationships) tmp_edges acc = inr out ->
  Dict.keys (fst acc) = Dict.keys (snd acc) ->
  Dict.keys (fst out) = Dict.keys (snd out)
  /\ forall k, In k (Dict.keys (fst out)) <->
               In k (Dict.keys (fst acc)) \/ In k (Dict.keys tmp_edges).
Proof.
  revert acc. induction tmp_edges as [| [k triples] tmp_edges IH];
    intros acc Hrun Hkeys.
  - simpl in Hrun. injection Hrun as <-. split; [exact Hkeys |].
    intros k. simpl. tauto.
  - cbn [for_each_r] in Hrun. rewrite classify_reltype_unfold in Hrun.
    destruct (Dict.get relationships k) as [rel_def |]; [| discriminate].
    apply IH in Hrun; [| cbn [fst snd]; now do 2 apply keys_set_congr].
    destruct Hrun as [Hout Hin]. split; [exact Hout |].
    intros k'. rewrite Hin. cbn [fst]. rewrite !DictFacts.In_keys_set.
    change (In k' (Dict.keys ((k, triples) :: tmp_edges)))
      with (k = k' \/ In k' (Dict.keys tmp_edges)).
    split.
    + intros [[-> | [-> | H]] | H]; auto.
    + intros [H | [<- | H]]; auto.
Qed.

Lemma emit_groups_all_empty (grouped : Dict.t string (list item)) :
  (forall k items, In (k, items) grouped -> items = []) ->
  emit_groups grouped = (Dict.empty, Dict.empty).
Proof.
  unfold emit_groups, Dict.items.
  generalize (@Dict.empty string ndarray, @Dict.empty string (list props)).
  induction grouped as [| [k items] grouped IH]; intros acc Hall; [reflexivity |].
  cbn [fold_left]. rewrite emit_group_unfold.
  rewrite (Hall k items) by now left.
  apply IH. intros k' items' Hin. apply (Hall k'). now right.
Qed.

Lemma init_grouped_values (rel_def : rel_def_t) (k : string) (items : list item) :
  In (k, items) (init_grouped rel_def) -> items = [].
Proof.
  intros Hin.
  assert (Hnd : NoDup (Dict.keys (init_grouped rel_def))).
  { exact (group_edges_keys_nodup rel_def []). }
  apply (DictFacts.In_get _ _ _ Hnd) in Hin.
  pose proof (init_grouped_getd rel_def k) as Hg.
  unfold Dict.getd in Hg. now rewrite Hin in Hg.
Qed.

Lemma group_edges_all_unmatched (rel_def : rel_def_t) (triples : list raw_edge) :
  (forall e sl tl, In e triples -> In sl (src_labels e) -> In tl (dst_labels e) ->
     Dict.get (build_label_to_type rel_def) (sl, tl) = None) ->
  group_edges rel_def triples = init_grouped rel_def.
Proof.
  intros Hnone. unfold group_edges. apply fold_left_id.
  intros g e Hin. apply classify_edge_unmatched.
  intros sl tl. now apply Hnone.
Qed.

(** The edge-index and edge-attribute mappings are keyed by the same
    relationship types, which are exactly the types of the traversed
    relationships.  A traversed type none of whose edges has a declared label
    pair is therefore present with an empty inner mapping, while a declared
    type that was not traversed has no key. *)
Theorem edge_mappings_keyed_by_traversed_types (db : store)
    (relationships : relationships_t) (q : string) (depth : Z) (tr tr' : trace)
    (seed_result : list node) (paths : list path)
    (nodes_ids : nodes_ids_t) (nodes_features : nodes_features_t)
    (edges_indices : edges_index_t) (edges_attributes : edges_attributes_t)
    (reltype : string) :
  answer_filter db q = inr seed_result ->
  map node_id seed_result <> [] ->
  answer_expand db depth (map node_id seed_result) = inr paths ->
  retrieve_subgraph db relationships q depth tr =
    (tr', inr (nodes_ids, nodes_features, edges_indices, edges_attributes)) ->
  Dict.keys edges_indices = Dict.keys edges_attributes
  /\ (In reltype (Dict.keys edges_indices) <->
      exists r, In r (traversed paths) /\ rel_type r = reltype)
  /\ ((exists r, In r (traversed paths) /\ rel_type r = reltype) ->
      (forall r rel_def sl tl,
         In r (traversed paths) -> rel_type r = reltype ->
         Dict.get relationships reltype = Some rel_def ->
         In sl (node_labels (start_node r)) ->
         In tl (node_labels (end_node r)) ->
         Dict.get (build_label_to_type rel_def) (sl, tl) = None) ->
      Dict.get edges_indices reltype = Some Dict.empty
      /\ Dict.get edges_attributes reltype = Some Dict.empty).
Proof.
  intros Hseed Hne Hexp Hrun.
  destruct (retrieve_subgraph_collect _ _ _ _ _ _ _ _ _ _ _ _ Hseed Hne Hexp Hrun)
    as (_ & _ & Hcls).
  destruct (for_each_classify_keys relationships (snd (collect paths))
              (Dict.empty, Dict.empty) (edges_indices, edges_attributes)
              Hcls eq_refl) as [Hkeys Hin].
  cbn [fst snd] in Hkeys, Hin.
  split; [exact Hkeys |].
  split.
  { rewrite Hin, collect_keys. cbn. tauto. }
  intros Hex Hnone.
  destruct (classify_get relationships (snd (collect paths))
              (edges_indices, edges_attributes) reltype
              (collect_keys_nodup paths) Hcls) as [Hi Ha].
  cbn [fst snd] in Hi, Ha.
  apply collect_keys in Hex.
  destruct (Dict.get (snd (collect paths)) reltype) as [triples |] eqn:Hraw.
  - cbn [classified_entry] in Hi, Ha.
    destruct (Dict.get relationships reltype) as [rel_def |] eqn:Hdef.
    + apply collect_get in Hraw.
      assert (Hgroup : group_edges rel_def triples = init_grouped rel_def).
      { apply group_edges_all_unmatched. intros e sl tl He Hsl Htl.
        rewrite Hraw in He. apply in_map_iff in He.
        destruct He as (r & <- & Hr). apply filter_In in Hr.
        destruct Hr as [Hr Htype]. unfold has_type in Htype.
        apply String.eqb_eq in Htype.
        exact (Hnone r rel_def sl tl Hr Htype eq_refl Hsl Htl). }
      rewrite Hgroup in Hi, Ha.
      rewrite (emit_groups_all_empty (init_grouped rel_def)
                 (init_grouped_values rel_def)) in Hi, Ha.
      split; assumption.
    + exfalso.
      destruct (for_each_classify_unknown relationships (snd (collect paths))
                  (Dict.empty, Dict.empty)) as (t & _ & _ & Hfail).
      { exists reltype. split; [exact Hex | exact Hdef]. }
      unfold classify, Dict.items in Hcls. congruence.
  - apply DictFacts.get_None_iff in Hraw. contradiction.
Qed.

Lemma edge_mappings_keyed_by_traversed_types_witness :
  Dict.keys [("owns", @Dict.empty string ndarray)] =
  Dict.keys [("owns", @Dict.empty string (list props))]
  /\ (In "owns" (Dict.keys [("owns", @Dict.empty string ndarray)]) <->
      exists r, In r (traversed [one_hop]) /\ rel_type r = "owns")
  /\ ((exists r, In r (traversed [one_hop]) /\ rel_type r = "owns") ->
      (forall r rel_def sl tl,
         In r (traversed [one_hop]) -> rel_type r = "owns" ->
         Dict.get reversed_schema "owns" = Some rel_def ->
         In sl (node_labels (start_node r)) ->
         In tl (node_labels (end_node r)) ->
         Dict.get (build_label_to_type rel_def) (sl, tl) = None) ->
      Dict.get [("owns", @Dict.empty string ndarray)] "owns" = Some Dict.empty
      /\ Dict.get [("owns", @Dict.empty string (list props))] "owns" =
         Some Dict.empty).
Proof.
  apply (edge_mappings_keyed_by_traversed_types
           (graph_store [alice] [one_hop]) reversed_schema seed_query 1 []
           [EvRun (QFilter seed_query); ev_starting; EvRun (QExpand 1 [1%Z]);
            ev_finished]
           [alice] [one_hop]
           [("User", [1%Z]); ("Repo", [2%Z])]
           [("User", [node_props alice]); ("Repo", [node_props pulse])]
           [("owns", Dict.empty)] [("owns", Dict.empty)] "owns").
  - reflexivity.
  - discriminate.
  - reflexivity.
  - reflexivity.
Defined.

(** ** The lookup from label pairs to sub-types *)

Lemma build_label_to_type_unfold (rel_def : rel_def_t) :
  build_label_to_type rel_def = fold_left declare_pair rel_def Dict.empty.
Proof.
  unfold build_label_to_type, Dict.items.
  generalize (@Dict.empty (label * label) string).
  induction rel_def as [| [typename info] rel_def IH]; intros l2t;
    [reflexivity | apply IH].
Qed.

Lemma declare_pair_get (label_to_type : Dict.t (label * label) string)
    (typename : string) (info : rel_info) (pair : label * label) :
  Dict.get (declare_pair label_to_type (typename, info)) pair =
  if eq_dec (label_pair info) pair then Some typename
  else Dict.get label_to_type pair.
Proof.
  unfold declare_pair. cbn [fst snd].
  destruct (eq_dec (label_pair info) pair) as [<- | Hne].
  - apply DictFacts.get_set_eq.
  - now apply DictFacts.get_set_neq.
Qed.

Lemma fold_declare_pair_sound (entries : rel_def_t)
    (label_to_type : Dict.t (label * label) string) (pair : label * label)
    (typename : string) :
  Dict.get (fold_left declare_pair entries label_to_type) pair = Some typename ->
  Dict.get label_to_type pair = Some typename \/
  exists info, In (typename, info) entries /\ label_pair info = pair.
Proof.
  revert label_to_type.
  induction entries as [| [tn info] entries IH]; intros l2t Hget; [now left |].
  cbn [fold_left] in Hget. apply IH in Hget.
  destruct Hget as [Hget | (info' & Hin & Hpair)].
  - rewrite declare_pair_get in Hget.
    destruct (eq_dec (label_pair info) pair) as [Heq | Hne]; [| now left].
    injection Hget as ->. right. exists info. split; [now left | exact Heq].
  - right. exists info'. split; [now right | exact Hpair].
Qed.

Lemma fold_declare_pair_other (entries : rel_def_t)
    (label_to_type : Dict.t (label * label) string) (pair : label * label) :
  (forall tn info, In (tn, info) entries -> label_pair info <> pair) ->
  Dict.get (fold_left declare_pair entries label_to_type) pair =
  Dict.get label_to_type pair.
Proof.
  revert label_to_type.
  induction entries as [| [tn info] entries IH]; intros l2t Hother;
    [reflexivity |].
  cbn [fold_left]. rewrite IH.
  - rewrite declare_pair_get.
    destruct (eq_dec (label_pair info) pair) as [Heq | Hne]; [| reflexivity].
    exfalso. apply (Hother tn info); [now left | exact Heq].
  - intros tn' info' Hin. apply (Hother tn' info'). now right.
Qed.

Lemma In_keys_unique {K V : Type} (d : Dict.t K V) (k : K) (v v' : V) :
  NoDup (Dict.keys d) -> In (k, v) d -> In (k, v') d -> v = v'.
Proof.
  induction d as [| [k0 v0] d IH]; simpl; [tauto |].
  intros Hnd Hin Hin'. inversion Hnd as [| ? ? Hnotin Hnd']; subst.
  assert (Hkey : forall w, In (k0, w) d -> False).
  { intros w Hw. apply Hnotin. change k0 with (fst (k0, w)). now apply in_map. }
  destruct Hin as [Heq | Hin]; destruct Hin' as [Heq' | Hin'].
  - congruence.
  - injection Heq as -> ->. destruct (Hkey _ Hin').
  - injection Heq' as -> ->. destruct (Hkey _ Hin).
  - now apply IH.
Qed.

(** The lookup built from a declaration sends a label pair only to a
    sub-type declared with that pair, and when several sub-types declare the
    same pair the one declared last has it. *)
Theorem label_lookup_last_declaration_wins (rel_def before after : rel_def_t)
    (typename : string) (info : rel_info) :
  rel_def = before ++ (typename, info) :: after ->
  (forall tn' info', In (tn', info') after ->
     (source info', target info') <> (source info, target info)) ->
  Dict.get (build_label_to_type rel_def) (source info, target info) =
    Some typename
  /\ forall pair t,
       Dict.get (build_label_to_type rel_def) pair = Some t ->
       exists info', In (t, info') rel_def /\
                     (source info', target info') = pair.
Proof.
  intros -> Hlast. rewrite build_label_to_type_unfold. split.
  - rewrite fold_left_app. cbn [fold_left].
    rewrite (fold_declare_pair_other after); [| exact Hlast].
    rewrite declare_pair_get. unfold label_pair.
    destruct (eq_dec (source info, target info) (source info, target info));
      congruence.
  - intros pair t Hget. apply fold_declare_pair_sound in Hget.
    destruct Hget as [Hget | Hex]; [discriminate | exact Hex].
Qed.

Lemma label_lookup_last_declaration_wins_witness :
  Dict.get
    (build_label_to_type
       [("owns_repo", {| source := "User"; target := "Repo" |});
        ("maintains", {| source := "User"; target := "Repo" |});
        ("admin_repo", {| source := "Admin"; target := "Repo" |})])
    ("User", "Repo") = Some "maintains".
Proof.
  apply (label_lookup_last_declaration_wins
           [("owns_repo", {| source := "User"; target := "Repo" |});
            ("maintains", {| source := "User"; target := "Repo" |});
            ("admin_repo", {| source := "Admin"; target := "Repo" |})]
           [("owns_repo", {| source := "User"; target := "Repo" |})]
           [("admin_repo", {| source := "Admin"; target := "Repo" |})]
           "maintains" {| source := "User"; target := "Repo" |}).
  - reflexivity.
  - intros tn' info' [[= <- <-] | []]. discriminate.
Defined.

(** ** Where the emitted columns come from *)

Lemma In_repeat_iff {A : Type} (x y : A) (n : nat) :
  In y (repeat x n) <-> y = x /\ n <> 0.
Proof.
  split.
  - intros Hin. split; [exact (repeat_spec n x y Hin) |].
    destruct n; [destruct Hin | discriminate].
  - intros [-> Hn]. destruct n; [congruence | now left].
Qed.

Lemma classified_In (label_to_type : Dict.t (label * label) string)
    (typename : string) (triples : list raw_edge) (it : item) :
  In it (classified label_to_type typename triples) <->
  exists e, In e triples /\ it = item_of e /\
    exists sl tl, In sl (src_labels e) /\ In tl (dst_labels e) /\
                  Dict.get label_to_type (sl, tl) = Some typename.
Proof.
  unfold classified. rewrite in_flat_map. split.
  - intros (e & He & Hin). apply In_repeat_iff in Hin. destruct Hin as [-> Hn].
    exists e. split; [exact He | split; [reflexivity |]].
    unfold matching_pairs in Hn.
    destruct (filter (maps_to label_to_type typename)
                (list_prod (src_labels e) (dst_labels e)))
      as [| [sl tl] rest] eqn:Hf; [now destruct Hn |].
    assert (Hp : In (sl, tl)
                   (filter (maps_to label_to_type typename)
                      (list_prod (src_labels e) (dst_labels e)))).
    { rewrite Hf. now left. }
    apply filter_In in Hp. destruct Hp as [Hprod Hmaps].
    apply in_prod_iff in Hprod. exists sl, tl.
    split; [tauto | split; [tauto |]].
    unfold maps_to in Hmaps.
    destruct (Dict.get label_to_type (sl, tl)) as [t |]; [| discriminate].
    apply String.eqb_eq in Hmaps. now subst.
  - intros (e & He & -> & sl & tl & Hsl & Htl & Hget).
    exists e. split; [exact He |]. apply In_repeat_iff. split; [reflexivity |].
    unfold matching_pairs.
    assert (Hp : In (sl, tl)
                   (filter (maps_to label_to_type typename)
                      (list_prod (src_labels e) (dst_labels e)))).
    { apply filter_In. split; [apply in_prod_iff; tauto |].
      unfold maps_to. rewrite Hget. apply String.eqb_refl. }
    destruct (filter (maps_to label_to_type typename)
                (list_prod (src_labels e) (dst_labels e)));
      [destruct Hp | discriminate].
Qed.

(** What a classification that went through leaves under a relationship
    type and a sub-type. *)
Lemma subtype_entry_classified (relationships : relationships_t)
    (tmp_edges : tmp_edges_t) (edges_indices : edges_index_t)
    (edges_attributes : edges_attributes_t) (reltype typename : string)
    (rel_def : rel_def_t) (triples : list raw_edge) :
  classify relationships tmp_edges = inr (edges_indices, edges_attributes) ->
  NoDup (Dict.keys tmp_edges) ->
  Dict.get tmp_edges reltype = Some triples ->
  Dict.get relationships reltype = Some rel_def ->
  subtype_entry edges_indices reltype typename =
    emitted index_of
      (Some (classified (build_label_to_type rel_def) typename triples)) None
  /\ subtype_entry edges_attributes reltype typename =
    emitted feats_of
      (Some (classified (build_label_to_type rel_def) typename triples)) None.
Proof.
  intros Hcls Hnd Hraw Hdef.
  destruct (classify_get relationships tmp_edges
              (edges_indices, edges_attributes) reltype Hnd Hcls) as [Hi Ha].
  cbn [fst snd] in Hi, Ha. rewrite Hraw in Hi, Ha.
  cbn [classified_entry] in Hi, Ha. rewrite Hdef in Hi, Ha.
  unfold subtype_entry. rewrite Hi, Ha.
  destruct (emit_groups_get (group_edges rel_def triples) typename
              (group_edges_keys_nodup rel_def triples)) as [Hgi Hga].
  rewrite Hgi, Hga. rewrite <- group_edges_getd. unfold Dict.getd.
  destruct (Dict.get (group_edges rel_def triples) typename) as [[| i items] |];
    split; reflexivity.
Qed.

Lemma collect_get_some (paths : list path) (r : relationship) :
  In r (traversed paths) ->
  Dict.get (snd (collect paths)) (rel_type r) =
  Some (map to_raw_edge (filter (has_type (rel_type r)) (traversed paths))).
Proof.
  intros Hin.
  destruct (Dict.get (snd (collect paths)) (rel_type r)) as [triples |] eqn:Hraw.
  - f_equal. now apply collect_get.
  - apply DictFacts.get_None_iff in Hraw. exfalso. apply Hraw.
    apply collect_keys. now exists r.
Qed.

(** Every column of an emitted edge index is a traversed relationship of
    that relationship type, with its direction, whose start node carries the
    source label and whose end node carries the target label of a
    declaration of that sub-type; the attribute list holds that
    relationship's properties at the same position. *)
Theorem emitted_edges_respect_declaration (db : store)
    (relationships : relationships_t) (q : string) (depth : Z) (tr tr' : trace)
    (seed_result : list node) (paths : list path)
    (nodes_ids : nodes_ids_t) (nodes_features : nodes_features_t)
    (edges_indices : edges_index_t) (edges_attributes : edges_attributes_t)
    (reltype typename : string) (rel_def : rel_def_t)
    (arr : ndarray) (feats : list props) (k : nat) (s d : Z) (f : props) :
  answer_filter db q = inr seed_result ->
  map node_id seed_result <> [] ->
  answer_expand db depth (map node_id seed_result) = inr paths ->
  retrieve_subgraph db relationships q depth tr =
    (tr', inr (nodes_ids, nodes_features, edges_indices, edges_attributes)) ->
  Dict.get relationships reltype = Some rel_def ->
  subtype_entry edges_indices reltype typename = Some arr ->
  subtype_entry edges_attributes reltype typename = Some feats ->
  nth_error (nth 0 arr []) k = Some s ->
  nth_error (nth 1 arr []) k = Some d ->
  nth_error feats k = Some f ->
  exists r info,
    In r (traversed paths) /\ rel_type r = reltype /\
    node_id (start_node r) = s /\ node_id (end_node r) = d /\
    rel_props r = f /\
    In (typename, info) rel_def /\
    In (source info) (node_labels (start_node r)) /\
    In (target info) (node_labels (end_node r)).
Proof.
  intros Hseed Hne Hexp Hrun Hdef Harr Hfeats Hs Hd Hf.
  destruct (retrieve_subgraph_collect _ _ _ _ _ _ _ _ _ _ _ _ Hseed Hne Hexp Hrun)
    as (_ & _ & Hcls).
  destruct (Dict.get (snd (collect paths)) reltype) as [triples |] eqn:Hraw.
  2:{ destruct (classify_get relationships (snd (collect paths))
                  (edges_indices, edges_attributes) reltype
                  (collect_keys_nodup paths) Hcls) as [Hi _].
      cbn [fst] in Hi. rewrite Hraw in Hi. cbn [classified_entry] in Hi.
      unfold subtype_entry in Harr. rewrite Hi in Harr. discriminate. }
  destruct (subtype_entry_classified relationships (snd (collect paths))
              edges_indices edges_attributes reltype typename rel_def triples
              Hcls (collect_keys_nodup paths) Hraw Hdef) as [Hi Ha].
  rewrite Harr in Hi. rewrite Hfeats in Ha.
  pose proof (classified_In (build_label_to_type rel_def) typename triples) as Hin.
  destruct (classified (build_label_to_type rel_def) typename triples)
    as [| i0 items0] eqn:Hitems; cbn [emitted] in Hi, Ha; [discriminate |].
  assert (Earr : arr = index_of (i0 :: items0)) by congruence.
  assert (Efeats : feats = feats_of (i0 :: items0)) by congruence.
  subst arr feats. clear Hi Ha.
  unfold index_of, np_array in Hs, Hd. cbn [nth] in Hs, Hd.
  unfold feats_of in Hf. rewrite nth_error_map in Hs, Hd, Hf.
  assert (Hk : exists it, nth_error (i0 :: items0) k = Some it /\
                          fst (fst it) = s /\ snd (fst it) = d /\ snd it = f).
  { destruct (nth_error (i0 :: items0) k) as [it |] eqn:Hk.
    - exists it. split; [reflexivity |].
      assert (Hs' : option_map (fun e : Z * Z * props => fst (fst e)) (Some it)
                    = Some s) by (rewrite <- Hs; f_equal; exact (eq_sym Hk)).
      assert (Hd' : option_map (fun e : Z * Z * props => snd (fst e)) (Some it)
                    = Some d) by (rewrite <- Hd; f_equal; exact (eq_sym Hk)).
      assert (Hf' : option_map (fun e : Z * Z * props => snd e) (Some it)
                    = Some f) by (rewrite <- Hf; f_equal; exact (eq_sym Hk)).
      cbn in Hs', Hd', Hf'. repeat split; congruence.
    - exfalso.
      assert (Hs' : option_map (fun e : Z * Z * props => fst (fst e)) None
                    = Some s) by (rewrite <- Hs; f_equal; exact (eq_sym Hk)).
      discriminate. }
  destruct Hk as ([[s' d'] f'] & Hk & Hs' & Hd' & Hf').
  cbn in Hs', Hd', Hf'. subst s' d' f'. clear Hs Hd Hf.
  apply nth_error_In in Hk. apply Hin in Hk.
  destruct Hk as (e & He & Hit & sl & tl & Hsl & Htl & Hget).
  apply collect_get in Hraw. rewrite Hraw in He. apply in_map_iff in He.
  destruct He as (r & <- & Hr). apply filter_In in Hr. destruct Hr as [Hr Htype].
  unfold has_type in Htype. apply String.eqb_eq in Htype.
  rewrite build_label_to_type_unfold in Hget.
  apply fold_declare_pair_sound in Hget.
  destruct Hget as [Hget | (info & Hinfo & Hpair)]; [discriminate |].
  unfold label_pair in Hpair. injection Hpair as <- <-.
  unfold item_of, to_raw_edge in Hit. cbn in Hit. injection Hit as -> -> ->.
  exists r, info. repeat split; assumption.
Qed.

Lemma emitted_edges_respect_declaration_witness :
  exists r info,
    In r (traversed sample_paths) /\ rel_type r = "owns" /\
    node_id (start_node r) = 3%Z /\ node_id (end_node r) = 2%Z /\
    rel_props r = rel_props root_owns_pulse /\
    In ("owns_repo", info) owns_rel_def /\
    In (source info) (node_labels (start_node r)) /\
    In (target info) (node_labels (end_node r)).
Proof.
  apply (emitted_edges_respect_declaration sample_store owns_schema seed_query 2
           [] sample_trace [alice; root] sample_paths sample_nodes_ids
           sample_nodes_features sample_edges_indices sample_edges_attributes
           "owns" "owns_repo" owns_rel_def
           [[1%Z; 1%Z; 3%Z]; [2%Z; 2%Z; 2%Z]]
           [rel_props alice_owns_pulse; rel_props alice_owns_pulse;
            rel_props root_owns_pulse] 2 3%Z 2%Z (rel_props root_owns_pulse)).
  - reflexivity.
  - discriminate.
  - reflexivity.
  - reflexivity.
  - reflexivity.
  - reflexivity.
  - reflexivity.
  - reflexivity.
  - reflexivity.
  - reflexivity.
Defined.

(** Conversely every traversed relationship of a declared type, one of
    whose label pairs the lookup sends to a sub-type, has a column in the
    edge index of that sub-type, with its properties at the same position
    of the attribute list. *)
Theorem declared_edge_is_emitted (db : store)
    (relationships : relationships_t) (q : string) (depth : Z) (tr tr' : trace)
    (seed_result : list node) (paths : list path)
    (nodes_ids : nodes_ids_t) (nodes_features : nodes_features_t)
    (edges_indices : edges_index_t) (edges_attributes : edges_attributes_t)
    (r : relationship) (rel_def : rel_def_t) (sl tl : label) (typename : string) :
  answer_filter db q = inr seed_result ->
  map node_id seed_result <> [] ->
  answer_expand db depth (map node_id seed_result) = inr paths ->
  retrieve_subgraph db relationships q depth tr =
    (tr', inr (nodes_ids, nodes_features, edges_indices, edges_attributes)) ->
  In r (traversed paths) ->
  Dict.get relationships (rel_type r) = Some rel_def ->
  In sl (node_labels (start_node r)) ->
  In tl (node_labels (end_node r)) ->
  Dict.get (build_label_to_type rel_def) (sl, tl) = Some typename ->
  exists arr feats k,
    subtype_entry edges_indices (rel_type r) typename = Some arr /\
    subtype_entry edges_attributes (rel_type r) typename = Some feats /\
    nth_error (nth 0 arr []) k = Some (node_id (start_node r)) /\
    nth_error (nth 1 arr []) k = Some (node_id (end_node r)) /\
    nth_error feats k = Some (rel_props r).
Proof.
  intros Hseed Hne Hexp Hrun Hr Hdef Hsl Htl Hget.
  destruct (retrieve_subgraph_collect _ _ _ _ _ _ _ _ _ _ _ _ Hseed Hne Hexp Hrun)
    as (_ & _ & Hcls).
  pose proof (collect_get_some paths r Hr) as Hraw.
  destruct (subtype_entry_classified relationships (snd (collect paths))
              edges_indices edges_attributes (rel_type r) typename rel_def _
              Hcls (collect_keys_nodup paths) Hraw Hdef) as [Hi Ha].
  assert (Hin : In (item_of (to_raw_edge r))
                  (classified (build_label_to_type rel_def) typename
                     (map to_raw_edge
                        (filter (has_type (rel_type r)) (traversed paths))))).
  { apply classified_In. exists (to_raw_edge r). split.
    - apply in_map. apply filter_In. split; [exact Hr |].
      unfold has_type. apply String.eqb_refl.
    - split; [reflexivity |]. exists sl, tl. repeat split; assumption. }
  destruct (classified (build_label_to_type rel_def) typename
              (map to_raw_edge (filter (has_type (rel_type r)) (traversed paths))))
    as [| i0 items0]; [destruct Hin |].
  cbn [emitted] in Hi, Ha.
  apply In_nth_error in Hin. destruct Hin as (k & Hk).
  exists (index_of (i0 :: items0)), (feats_of (i0 :: items0)), k.
  split; [exact Hi | split; [exact Ha |]].
  unfold index_of, np_array, feats_of. cbn [nth].
  rewrite !nth_error_map.
  repeat split;
    (etransitivity; [apply f_equal; exact Hk | reflexivity]).
Qed.

Lemma declared_edge_is_emitted_witness :
  exists arr feats k,
    subtype_entry sample_edges_indices (rel_type root_owns_pulse) "admin_repo"
      = Some arr /\
    subtype_entry sample_edges_attributes (rel_type root_owns_pulse) "admin_repo"
      = Some feats /\
    nth_error (nth 0 arr []) k = Some (node_id (start_node root_owns_pulse)) /\
    nth_error (nth 1 arr []) k = Some (node_id (end_node root_owns_pulse)) /\
    nth_error feats k = Some (rel_props root_owns_pulse).
Proof.
  apply (declared_edge_is_emitted sample_store owns_schema seed_query 2 []
           sample_trace [alice; root] sample_paths sample_nodes_ids
           sample_nodes_features sample_edges_indices sample_edges_attributes
           root_owns_pulse owns_rel_def "Admin" "Repo" "admin_repo").
  - reflexivity.
  - discriminate.
  - reflexivity.
  - reflexivity.
  - simpl; tauto.
  - reflexivity.
  - simpl; tauto.
  - simpl; tauto.
  - reflexivity.
Defined.

(** ** Sub-types that can never receive an edge, and edges met once *)

Lemma classified_nil (label_to_type : Dict.t (label * label) string)
    (typename : string) (triples : list raw_edge) :
  (forall pair, Dict.get label_to_type pair <> Some typename) ->
  classified label_to_type typename triples = [].
Proof.
  intros Hnever.
  destruct (classified label_to_type typename triples) as [| it items] eqn:Hc;
    [reflexivity |].
  assert (Hin : In it (classified label_to_type typename triples)).
  { rewrite Hc. now left. }
  apply classified_In in Hin.
  destruct Hin as (e & _ & _ & sl & tl & _ & _ & Hget).
  destruct (Hnever _ Hget).
Qed.

Lemma shadowed_lookup (before after : rel_def_t) (shadowed typename : string)
    (info0 info : rel_info) (pair : label * label) :
  NoDup (Dict.keys (before ++ (typename, info) :: after)) ->
  In (shadowed, info0) before ->
  label_pair info0 = label_pair info ->
  Dict.get (build_label_to_type (before ++ (typename, info) :: after)) pair
    <> Some shadowed.
Proof.
  intros Hnd Hin0 Hpair Hget.
  assert (Hkey0 : In shadowed (Dict.keys before)).
  { change shadowed with (fst (shadowed, info0)). now apply in_map. }
  rewrite keys_app in Hnd. cbn [Dict.keys map fst] in Hnd.
  fold (Dict.keys after) in Hnd.
  assert (Hne : shadowed <> typename).
  { intros ->. apply NoDup_remove_2 in Hnd. apply Hnd.
    apply in_app_iff. now left. }
  assert (Hnotafter : ~ In shadowed (Dict.keys after)).
  { intros Hin. apply NoDup_app_remove_r in Hnd as Hb.
    revert Hkey0 Hin Hnd. clear. intros Hb Ha Hnd.
    induction before as [| [k v] before IH]; [destruct Hb |].
    cbn in Hnd. inversion Hnd as [| ? ? Hnotin Hnd']; subst.
    destruct Hb as [<- | Hb].
    - apply Hnotin. apply in_app_iff. right. now right.
    - now apply IH. }
  pose proof Hget as Hsound.
  rewrite build_label_to_type_unfold in Hsound.
  apply fold_declare_pair_sound in Hsound.
  destruct Hsound as [Hsound | (info' & Hin' & Hpair')]; [discriminate |].
  assert (Hinfo : info' = info0).
  { apply (In_keys_unique (before ++ (typename, info) :: after) shadowed).
    - rewrite keys_app. exact Hnd.
    - exact Hin'.
    - apply in_app_iff. now left. }
  subst info'. rewrite Hpair in Hpair'. subst pair.
  rewrite build_label_to_type_unfold, fold_left_app in Hget.
  cbn [fold_left] in Hget. apply fold_declare_pair_sound in Hget.
  destruct Hget as [Hget | (info1 & Hin1 & _)].
  - rewrite declare_pair_get in Hget.
    destruct (eq_dec (label_pair info) (label_pair info)); congruence.
  - apply Hnotafter. change shadowed with (fst (shadowed, info1)).
    now apply in_map.
Qed.

(** When two sub-types of a relationship type declare the same label pair,
    the one declared first receives no edge and is never emitted, whatever
    the traversal returns. *)
Theorem shadowed_subtype_is_never_emitted (db : store)
    (relationships : relationships_t) (q : string) (depth : Z) (tr tr' : trace)
    (nodes_ids : nodes_ids_t) (nodes_features : nodes_features_t)
    (edges_indices : edges_index_t) (edges_attributes : edges_attributes_t)
    (reltype : string) (before after : rel_def_t) (shadowed typename : string)
    (info0 info : rel_info) :
  retrieve_subgraph db relationships q depth tr =
    (tr', inr (nodes_ids, nodes_features, edges_indices, edges_attributes)) ->
  Dict.get relationships reltype = Some (before ++ (typename, info) :: after) ->
  NoDup (Dict.keys (before ++ (typename, info) :: after)) ->
  In (shadowed, info0) before ->
  (source info0, target info0) = (source info, target info) ->
  subtype_entry edges_indices reltype shadowed = None /\
  subtype_entry edges_attributes reltype shadowed = None.
Proof.
  intros Hrun Hdef Hnd Hin0 Hpair.
  destruct (retrieve_subgraph_entry _ _ _ _ _ _ _ _ _ _ Hrun)
    as (seed_result & Hseed & [(_ & -> & ->) | (paths & Hexp & Hentry)]);
    [split; reflexivity |].
  destruct (Hentry reltype) as [Hi Ha]. unfold subtype_entry.
  rewrite Hi, Ha. clear Hi Ha.
  destruct (Dict.get (snd (collect paths)) reltype) as [triples |];
    cbn [classified_entry]; [| split; reflexivity].
  rewrite Hdef.
  destruct (emit_groups_get
              (group_edges (before ++ (typename, info) :: after) triples)
              shadowed (group_edges_keys_nodup _ triples)) as [Hgi Hga].
  rewrite Hgi, Hga.
  pose proof (group_edges_getd (before ++ (typename, info) :: after) triples
                shadowed) as Hitems.
  rewrite classified_nil in Hitems.
  - unfold Dict.getd in Hitems.
    destruct (Dict.get (group_edges (before ++ (typename, info) :: after) triples)
                shadowed) as [items |]; [subst items |]; split; reflexivity.
  - intros pair. now apply (shadowed_lookup before after shadowed typename info0 info).
Qed.

Lemma shadowed_subtype_is_never_emitted_witness :
  subtype_entry [("owns", [("maintains", [[1%Z]; [2%Z]])])] "owns" "owns_repo"
    = None
  /\ subtype_entry [("owns", [("maintains", [rel_props alice_owns_pulse])])]
       "owns" "owns_repo" = None.
Proof.
  apply (shadowed_subtype_is_never_emitted
           (graph_store [alice] [one_hop])
           [("owns", [("owns_repo", {| source := "User"; target := "Repo" |});
                      ("maintains", {| source := "User"; target := "Repo" |})])]
           seed_query 1 []
           [EvRun (QFilter seed_query); ev_starting; EvRun (QExpand 1 [1%Z]);
            ev_finished]
           [("User", [1%Z]); ("Repo", [2%Z])]
           [("User", [node_props alice]); ("Repo", [node_props pulse])]
           [("owns", [("maintains", [[1%Z]; [2%Z]])])]
           [("owns", [("maintains", [rel_props alice_owns_pulse])])]
           "owns" [("owns_repo", {| source := "User"; target := "Repo" |})] []
           "owns_repo" "maintains" {| source := "User"; target := "Repo" |}
           {| source := "User"; target := "Repo" |}).
  - reflexivity.
  - reflexivity.
  - simpl. constructor; [simpl; intros [Heq | []]; discriminate |].
    constructor; [simpl; tauto | constructor].
  - simpl; tauto.
  - reflexivity.
Defined.

Lemma NoDup_list_prod {A B : Type} (l : list A) (l' : list B) :
  NoDup l -> NoDup l' -> NoDup (list_prod l l').
Proof.
  intros Hl Hl'. induction Hl as [| x l Hx Hl IH]; [constructor |].
  cbn [list_prod]. apply NoDup_app.
  - clear IH. induction Hl' as [| y l' Hy Hl' IH']; [constructor |].
    cbn [map]. constructor; [| exact IH'].
    rewrite in_map_iff. intros (y' & [= <-] & Hin). contradiction.
  - exact IH.
  - intros [a b] Hin Hin'. apply in_map_iff in Hin.
    destruct Hin as (y & [= <- <-] & _). apply in_prod_iff in Hin'. tauto.
Qed.

Lemma matching_pairs_at_most_one (rel_def : rel_def_t) (typename : string)
    (e : raw_edge) :
  NoDup (Dict.keys rel_def) ->
  NoDup (src_labels e) -> NoDup (dst_labels e) ->
  length (matching_pairs (build_label_to_type rel_def) typename e) <= 1.
Proof.
  intros Hkeys Hsrc Hdst.
  assert (Hnd : NoDup (matching_pairs (build_label_to_type rel_def) typename e)).
  { unfold matching_pairs. apply NoDup_filter. now apply NoDup_list_prod. }
  assert (Hsame : forall p p',
             In p (matching_pairs (build_label_to_type rel_def) typename e) ->
             In p' (matching_pairs (build_label_to_type rel_def) typename e) ->
             p = p').
  { assert (Hdecl : forall p,
               In p (matching_pairs (build_label_to_type rel_def) typename e) ->
               exists info, In (typename, info) rel_def /\ label_pair info = p).
    { intros p Hp. unfold matching_pairs in Hp. apply filter_In in Hp.
      destruct Hp as [_ Hmaps]. unfold maps_to in Hmaps.
      destruct (Dict.get (build_label_to_type rel_def) p) as [t |] eqn:Hget;
        [| discriminate].
      apply String.eqb_eq in Hmaps. subst t.
      rewrite build_label_to_type_unfold in Hget.
      apply fold_declare_pair_sound in Hget.
      destruct Hget as [Hget | Hex]; [discriminate | exact Hex]. }
    intros p p' Hp Hp'.
    destruct (Hdecl p Hp) as (info & Hin & <-).
    destruct (Hdecl p' Hp') as (info' & Hin' & <-).
    now rewrite (In_keys_unique rel_def typename info info' Hkeys Hin Hin'). }
  destruct (matching_pairs (build_label_to_type rel_def) typename e)
    as [| p [| p' rest]]; cbn [length]; [lia | lia |].
  exfalso. inversion Hnd as [| ? ? Hnotin _]; subst. apply Hnotin.
  rewrite (Hsame p p'); [now left | now left | right; now left].
Qed.

Lemma length_classified_le (rel_def : rel_def_t) (typename : string)
    (triples : list raw_edge) :
  NoDup (Dict.keys rel_def) ->
  (forall e, In e triples -> NoDup (src_labels e) /\ NoDup (dst_labels e)) ->
  length (classified (build_label_to_type rel_def) typename triples)
    <= length triples.
Proof.
  intros Hkeys Hlabels. unfold classified.
  induction triples as [| e triples IH]; [cbn; lia |].
  cbn [flat_map length]. rewrite length_app, repeat_length.
  destruct (Hlabels e (or_introl eq_refl)) as [Hsrc Hdst].
  pose proof (matching_pairs_at_most_one rel_def typename e Hkeys Hsrc Hdst).
  assert (length
            (flat_map
               (fun e0 => repeat (item_of e0)
                            (length (matching_pairs (build_label_to_type rel_def)
                                       typename e0))) triples)
          <= length triples).
  { apply IH. intros e' Hin. apply Hlabels. now right. }
  lia.
Qed.

(** When no traversed node lists a label twice and the sub-type names of a
    relationship type are distinct, a relationship met on a path gives at
    most one column to any one sub-type: an edge index never has more
    columns than relationships of its type were traversed. *)
Theorem columns_bounded_by_traversed_relationships (db : store)
    (relationships : relationships_t) (q : string) (depth : Z) (tr tr' : trace)
    (seed_result : list node) (paths : list path)
    (nodes_ids : nodes_ids_t) (nodes_features : nodes_features_t)
    (edges_indices : edges_index_t) (edges_attributes : edges_attributes_t)
    (reltype typename : string) (rel_def : rel_def_t) (arr : ndarray) :
  answer_filter db q = inr seed_result ->
  map node_id seed_result <> [] ->
  answer_expand db depth (map node_id seed_result) = inr paths ->
  retrieve_subgraph db relationships q depth tr =
    (tr', inr (nodes_ids, nodes_features, edges_indices, edges_attributes)) ->
  Dict.get relationships reltype = Some rel_def ->
  NoDup (Dict.keys rel_def) ->
  (forall r, In r (traversed paths) ->
     NoDup (node_labels (start_node r)) /\ NoDup (node_labels (end_node r))) ->
  subtype_entry edges_indices reltype typename = Some arr ->
  length (nth 0 arr []) <= length (filter (has_type reltype) (traversed paths))
  /\ length (nth 1 arr []) <= length (filter (has_type reltype) (traversed paths)).
Proof.
  intros Hseed Hne Hexp Hrun Hdef Hkeys Hlabels Harr.
  destruct (retrieve_subgraph_collect _ _ _ _ _ _ _ _ _ _ _ _ Hseed Hne Hexp Hrun)
    as (_ & _ & Hcls).
  destruct (Dict.get (snd (collect paths)) reltype) as [triples |] eqn:Hraw.
  2:{ destruct (classify_get relationships (snd (collect paths))
                  (edges_indices, edges_attributes) reltype
                  (collect_keys_nodup paths) Hcls) as [Hi _].
      cbn [fst] in Hi. rewrite Hraw in Hi. cbn [classified_entry] in Hi.
      unfold subtype_entry in Harr. rewrite Hi in Harr. discriminate. }
  destruct (subtype_entry_classified relationships (snd (collect paths))
              edges_indices edges_attributes reltype typename rel_def triples
              Hcls (collect_keys_nodup paths) Hraw Hdef) as [Hi _].
  rewrite Harr in Hi. apply collect_get in Hraw.
  assert (Hlen : length (classified (build_label_to_type rel_def) typename triples)
                 <= length (filter (has_type reltype) (traversed paths))).
  { rewrite <- (length_map to_raw_edge), <- Hraw.
    apply length_classified_le; [exact Hkeys |].
    intros e He. rewrite Hraw in He. apply in_map_iff in He.
    destruct He as (r & <- & Hr). apply filter_In in Hr.
    apply Hlabels. tauto. }
  destruct (classified (build_label_to_type rel_def) typename triples)
    as [| i0 items0]; cbn [emitted] in Hi; [discriminate |].
  assert (Earr : arr = index_of (i0 :: items0)) by congruence. subst arr.
  unfold index_of, np_array. cbn [nth]. rewrite !length_map. split; exact Hlen.
Qed.

Lemma columns_bounded_by_traversed_relationships_witness :
  length (nth 0 [[1%Z; 1%Z]; [2%Z; 2%Z]] []) <=
    length (filter (has_type "owns") (traversed [one_hop; round_trip]))
  /\ length (nth 1 [[1%Z; 1%Z]; [2%Z; 2%Z]] []) <=
    length (filter (has_type "owns") (traversed [one_hop; round_trip])).
Proof.
  apply (columns_bounded_by_traversed_relationships
           (graph_store [alice] [one_hop; round_trip]) owns_schema seed_query 2
           [] [ev_filter seed_query; ev_starting; ev_expand 2 [1%Z]; ev_finished]
           [alice] [one_hop; round_trip]
           [("User", [1%Z]); ("Repo", [2%Z])]
           [("User", [node_props alice]); ("Repo", [node_props pulse])]
           [("owns", [("owns_repo", [[1%Z; 1%Z]; [2%Z; 2%Z]])])]
           [("owns", [("owns_repo", [rel_props alice_owns_pulse;
                                     rel_props alice_owns_pulse])])]
           "owns" "owns_repo" owns_rel_def [[1%Z; 1%Z]; [2%Z; 2%Z]]).
  - reflexivity.
  - discriminate.
  - reflexivity.
  - reflexivity.
  - reflexivity.
  - simpl. constructor; [simpl; intros [Heq | []]; discriminate |].
    constructor; [simpl; tauto | constructor].
  - intros r Hin. simpl in Hin.
    destruct Hin as [<- | [<- | [<- | []]]]; simpl;
      (split; (constructor; [simpl; tauto | constructor])).
  - reflexivity.
Defined.

(** ** [retrieve_nodes] *)

Lemma for_each_ext {A S : Type} (body body' : S -> A -> M S) (l : list A)
    (s : S) (tr : trace) :
  (forall s a tr, body s a tr = body' s a tr) ->
  for_each body l s tr = for_each body' l s tr.
Proof.
  intros Hext. revert s tr. induction l as [| a l IH]; intros s tr;
    [reflexivity |].
  cbn [for_each]. unfold bind. rewrite Hext.
  destruct (body' s a tr) as [tr1 [e | s1]]; [reflexivity | apply IH].
Qed.

Lemma retrieve_nodes_unfold (db : store) (nodes_list : list label) (tr : trace) :
  retrieve_nodes db nodes_list tr =
  for_each (store_label db) nodes_list (Dict.empty, Dict.empty) tr.
Proof.
  unfold retrieve_nodes. apply for_each_ext.
  intros [ids feats] nd tr0. reflexivity.
Qed.

Lemma store_label_run (db : store) (ids : Dict.t string (list Z))
    (feats : Dict.t string (list props)) (nd : label) (tr : trace) :
  store_label db (ids, feats) nd tr =
  match answer_nodes db nd with
  | inl e => (tr ++ ev_nodes_failed nd e, inl e)
  | inr results =>
      (tr ++ [ev_nodes nd],
       inr (Dict.set ids nd (map value_id results),
            Dict.set feats nd (map features results)))
  end.
Proof.
  unfold store_label, bind. rewrite get_nodes_run.
  destruct (answer_nodes db nd) as [e | results]; [| reflexivity].
  unfold ev_nodes_failed.
  destruct (is_query_error e); [now rewrite <- app_assoc | reflexivity].
Qed.


Lemma store_labels_run (db : store) (rows : label -> list node_row)
    (nodes_list : list label) :
  forall (ids0 : Dict.t string (list Z)) (feats0 : Dict.t string (list props))
         (tr : trace),
    (forall lab, In lab nodes_list -> answer_nodes db lab = inr (rows lab)) ->
    exists ids feats,
      for_each (store_label db) nodes_list (ids0, feats0) tr =
        (tr ++ map ev_nodes nodes_list, inr (ids, feats))
      /\ (forall lab,
            Dict.get ids lab =
              if mem lab nodes_list then Some (map value_id (rows lab))
              else Dict.get ids0 lab)
      /\ (forall lab,
            Dict.get feats lab =
              if mem lab nodes_list then Some (map features (rows lab))
              else Dict.get feats0 lab)
      /\ (Dict.keys ids0 = Dict.keys feats0 -> Dict.keys ids = Dict.keys feats).
Proof.
  induction nodes_list as [| nd nodes_list IH]; intros ids0 feats0 tr Hok.
  - exists ids0, feats0. cbn. rewrite app_nil_r. repeat split; auto.
  - cbn [for_each]. unfold bind. rewrite store_label_run.
    rewrite (Hok nd) by now left.
    destruct (IH (Dict.set ids0 nd (map value_id (rows nd)))
                (Dict.set feats0 nd (map features (rows nd)))
                (tr ++ [ev_nodes nd])) as (ids & feats & Hrun & Hids & Hfeats & Hkeys).
    { intros lab Hin. apply Hok. now right. }
    exists ids, feats. split.
    { rewrite Hrun. cbn [map]. now rewrite <- app_assoc. }
    split; [| split].
    + intros lab. rewrite Hids. cbn [mem].
      destruct (mem lab nodes_list); [now destruct (eq_dec lab nd) |].
      destruct (eq_dec lab nd) as [-> | Hne].
      * apply DictFacts.get_set_eq.
      * apply DictFacts.get_set_neq. congruence.
    + intros lab. rewrite Hfeats. cbn [mem].
      destruct (mem lab nodes_list); [now destruct (eq_dec lab nd) |].
      destruct (eq_dec lab nd) as [-> | Hne].
      * apply DictFacts.get_set_eq.
      * apply DictFacts.get_set_neq. congruence.
    + intros Hk. apply Hkeys. now apply keys_set_congr.
Qed.

(** When the store answers the query of every listed label,
    [retrieve_nodes] sends one query per list element, in order, and
    returns two mappings with the same keys in which every listed label is
    bound to the identities and to the feature dictionaries of its rows, two
    lists of equal length, and no other label is bound. *)
Theorem retrieve_nodes_returns_every_label (db : store)
    (rows : label -> list node_row) (nodes_list : list label) (tr : trace) :
  (forall lab, In lab nodes_list -> answer_nodes db lab = inr (rows lab)) ->
  exists ids feats,
    retrieve_nodes db nodes_list tr =
      (tr ++ map (fun lab => EvRun (QNodes lab)) nodes_list, inr (ids, feats))
    /\ Dict.keys ids = Dict.keys feats
    /\ (forall lab, In lab nodes_list ->
          Dict.get ids lab = Some (map value_id (rows lab)) /\
          Dict.get feats lab = Some (map features (rows lab)) /\
          length (map value_id (rows lab)) = length (map features (rows lab)))
    /\ (forall lab, ~ In lab nodes_list ->
          Dict.get ids lab = None /\ Dict.get feats lab = None).
Proof.
  intros Hok. rewrite retrieve_nodes_unfold.
  destruct (store_labels_run db rows nodes_list Dict.empty Dict.empty tr Hok)
    as (ids & feats & Hrun & Hids & Hfeats & Hkeys).
  exists ids, feats. split; [exact Hrun |].
  split; [now apply Hkeys |].
  split.
  - intros lab Hin. apply mem_true_iff in Hin.
    pose proof (Hids lab) as Hi. pose proof (Hfeats lab) as Hf.
    unfold label in *. rewrite Hin in Hi, Hf. repeat split; try assumption.
    now rewrite !length_map.
  - intros lab Hnotin.
    assert (Hmem : mem lab nodes_list = false).
    { destruct (mem lab nodes_list) eqn:Hm; [| reflexivity].
      apply mem_true_iff in Hm. contradiction. }
    pose proof (Hids lab) as Hi. pose proof (Hfeats lab) as Hf.
    unfold label in *. rewrite Hmem in Hi, Hf. split; assumption.
Qed.

Lemma retrieve_nodes_returns_every_label_witness :
  exists ids feats,
    retrieve_nodes label_store ["User"; "Repo"; "User"] [] =
      ([EvRun (QNodes "User"); EvRun (QNodes "Repo"); EvRun (QNodes "User")],
       inr (ids, feats))
    /\ Dict.keys ids = Dict.keys feats
    /\ (forall lab, In lab ["User"; "Repo"; "User"] ->
          Dict.get ids lab = Some (map value_id (rows_of_label lab)) /\
          Dict.get feats lab = Some (map features (rows_of_label lab)) /\
          length (map value_id (rows_of_label lab)) =
          length (map features (rows_of_label lab)))
    /\ (forall lab, ~ In lab ["User"; "Repo"; "User"] ->
          Dict.get ids lab = None /\ Dict.get feats lab = None).
Proof.
  apply (retrieve_nodes_returns_every_label label_store rows_of_label
           ["User"; "Repo"; "User"] []).
  intros lab _. reflexivity.
Defined.



(** ** The queries of [retrieve_edges] *)









(** ** Paths that revisit known nodes *)

Lemma fold_add_new_node_known (l : list node) (pairs : list (Z * props)) :
  (forall n, In n l -> In (node_id n) (map fst pairs)) ->
  fold_left add_new_node l pairs = pairs.
Proof.
  induction l as [| n l IH]; intros Hknown; [reflexivity |].
  cbn [fold_left]. unfold add_new_node at 2.
  replace (mem (node_id n) (map fst pairs)) with true.
  - apply IH. intros n' Hin. apply Hknown. now right.
  - symmetry. apply mem_true_iff. apply Hknown. now left.
Qed.

Lemma visited_app (paths more : list path) :
  visited (paths ++ more) = visited paths ++ visited more.
Proof. unfold visited. apply flat_map_app. Qed.

Lemma traversed_app (paths more : list path) :
  traversed (paths ++ more) = traversed paths ++ traversed more.
Proof. unfold traversed. apply flat_map_app. Qed.

(** Extending the traversal result by paths all of whose nodes carrying a
    label were met before, with that label, leaves that label's bucket of
    identities and its list of property dictionaries as they were (the
    properties the later occurrences carry are not looked at), whereas every
    relationship of the added paths adds one raw edge to its type. *)
Theorem revisited_nodes_add_nothing (paths more : list path) (lab : label)
    (reltype : string) :
  (forall n, In n (visited more) -> In lab (node_labels n) ->
     exists n', In n' (visited paths) /\ node_id n' = node_id n /\
                In lab (node_labels n')) ->
  Dict.getd (fst (fst (collect (paths ++ more)))) lab [] =
    Dict.getd (fst (fst (collect paths))) lab []
  /\ Dict.getd (snd (fst (collect (paths ++ more)))) lab [] =
    Dict.getd (snd (fst (collect paths))) lab []
  /\ Dict.getd (snd (collect (paths ++ more))) reltype [] =
    Dict.getd (snd (collect paths)) reltype [] ++
    map to_raw_edge (filter (has_type reltype) (traversed more)).
Proof.
  intros Hknown.
  destruct (collect_bucket (paths ++ more) lab) as [Hids Hfeats].
  destruct (collect_bucket paths lab) as [Hids0 Hfeats0].
  assert (Hsame : first_seen_nodes (filter (has_label lab) (visited (paths ++ more)))
                  = first_seen_nodes (filter (has_label lab) (visited paths))).
  { unfold first_seen_nodes. rewrite visited_app, filter_app, fold_left_app.
    apply fold_add_new_node_known. intros n Hin.
    apply filter_In in Hin. destruct Hin as [Hin Hlab].
    apply has_label_iff in Hlab.
    destruct (Hknown n Hin Hlab) as (n' & Hin' & Hid & Hlab').
    rewrite (map_fst_first_seen_nodes _ []), In_fold_add_new. right.
    rewrite <- Hid. apply in_map. apply filter_In.
    split; [exact Hin' | now apply has_label_iff]. }
  split; [| split].
  - rewrite Hids, Hids0. now rewrite Hsame.
  - rewrite Hfeats, Hfeats0. now rewrite Hsame.
  - rewrite !collect_getd, traversed_app, filter_app, map_app. reflexivity.
Qed.

Lemma revisited_nodes_add_nothing_witness :
  Dict.getd (fst (fst (collect ([one_hop] ++ [round_trip])))) "User" [] =
    Dict.getd (fst (fst (collect [one_hop]))) "User" []
  /\ Dict.getd (snd (fst (collect ([one_hop] ++ [round_trip])))) "User" [] =
    Dict.getd (snd (fst (collect [one_hop]))) "User" []
  /\ Dict.getd (snd (collect ([one_hop] ++ [round_trip]))) "owns" [] =
    Dict.getd (snd (collect [one_hop])) "owns" [] ++
    map to_raw_edge (filter (has_type "owns") (traversed [round_trip])).
Proof.
  apply (revisited_nodes_add_nothing [one_hop] [round_trip] "User" "owns").
  intros n Hin Hlab. simpl in Hin.
  destruct Hin as [<- | [<- | [<- | []]]].
  - exists alice. simpl. tauto.
  - simpl in Hlab. destruct Hlab as [Heq | []]. discriminate.
  - exists alice. simpl. tauto.
Defined.

(** ** [get_edges] *)

(** [get_edges] sends its one query and, when it is answered, returns an
    array and an attribute list that follow the rows: as many attributes as
    rows, row by row the source identity in [arr[0]], the destination
    identity in [arr[1]] and the edge features at the same position.  With
    at least one row the array has two rows of that many columns; with no
    row it has no row at all. *)
Theorem get_edges_columns (db : store) (src_label : label) (rel : string)
    (dst_label : label) (tr tr' : trace) (arr : ndarray) (attrs : list pyval) :
  get_edges db src_label rel dst_label tr = (tr', inr (arr, attrs)) ->
  exists rows,
    answer_edges db src_label rel dst_label = inr rows /\
    tr' = tr ++ [EvRun (QEdges src_label rel dst_label)] /\
    length attrs = length rows /\
    (rows = [] -> arr = []) /\
    (rows <> [] -> shape arr = (2, length rows)) /\
    forall k row,
      nth_error rows k = Some row ->
      nth_error (nth 0 arr []) k = Some (row_src row) /\
      nth_error (nth 1 arr []) k = Some (row_dst row) /\
      nth_error attrs k = Some (edge_features row).
Proof.
  rewrite get_edges_run.
  destruct (answer_edges db src_label rel dst_label) as [e | rows];
    [discriminate |].
  intros [= <- <- <-]. exists rows.
  split; [reflexivity | split; [reflexivity |]].
  unfold edge_attrs_of, edge_index_of, np_array_T.
  split; [apply length_map |].
  split; [now intros -> |].
  split.
  - intros Hne. destruct rows as [| row rows]; [congruence |].
    unfold shape. cbn [map length]. now rewrite !length_map.
  - intros k row Hk. destruct rows as [| row0 rows]; [now destruct k |].
    cbn [map nth]. rewrite map_map. cbn [fst snd].
    change (row_src row0 :: map (fun x => row_src x) rows)
      with (map row_src (row0 :: rows)).
    rewrite map_map. cbn [fst snd].
    change (row_dst row0 :: map (fun x => row_dst x) rows)
      with (map row_dst (row0 :: rows)).
    change (edge_features row0 :: map edge_features rows)
      with (map edge_features (row0 :: rows)).
    rewrite !nth_error_map, Hk. repeat split; reflexivity.
Qed.

Lemma get_edges_columns_witness :
  exists rows,
    answer_edges edge_store "User" "owns" "Repo" = inr rows /\
    [EvRun (QEdges "User" "owns" "Repo")] =
      [] ++ [EvRun (QEdges "User" "owns" "Repo")] /\
    length [PyNone; PyInt 5] = length rows /\
    (rows = [] -> [[1%Z; 3%Z]; [2%Z; 2%Z]] = []) /\
    (rows <> [] -> shape [[1%Z; 3%Z]; [2%Z; 2%Z]] = (2, length rows)) /\
    forall k row,
      nth_error rows k = Some row ->
      nth_error (nth 0 [[1%Z; 3%Z]; [2%Z; 2%Z]] []) k = Some (row_src row) /\
      nth_error (nth 1 [[1%Z; 3%Z]; [2%Z; 2%Z]] []) k = Some (row_dst row) /\
      nth_error [PyNone; PyInt 5] k = Some (edge_features row).
Proof.
  apply (get_edges_columns edge_store "User" "owns" "Repo" []
           [EvRun (QEdges "User" "owns" "Repo")]
           [[1%Z; 3%Z]; [2%Z; 2%Z]] [PyNone; PyInt 5]).
  reflexivity.
Defined.
